(** * Map.jsx: tile orchestration of the WebODM map widget

    A shallow embedding of the React component [Map] (Map.jsx) together with
    the small part of its collaborators that the component drives:
    Leaflet's [LatLngBounds] (Leaflet 1.x), jQuery's [getJSON] promise and
    [async.each].  Handlers are functions from worlds to outcomes; the page
    is an event loop over them, so that answers may arrive in any order and
    interleave with clicks, opacity changes and unmounting.

    JavaScript numbers that reach this code are finite (JSON has no NaN or
    infinity, and Leaflet's [LatLng] constructor throws on NaN); the only
    operations applied to coordinates are comparisons, [Math.min] and
    [Math.max], which never round.  Coordinates are therefore modelled as
    canonical rationals [Qc], of which the finite doubles are a subset. *)

From Stdlib Require Import ZArith QArith Qcanon.
From stdpp Require Import base option list numbers strings pretty gmap.

Local Open Scope Qc_scope.

(** ** JavaScript helpers *)

(** [Math.min(a, b)] and [Math.max(a, b)] on finite numbers. *)
Definition Math_min (a b : Qc) : Qc := if decide (a ≤ b) then a else b.
Definition Math_max (a b : Qc) : Qc := if decide (a ≤ b) then b else a.

(** [arr.slice(from, to)] for [0 <= from <= to]. *)
Definition slice {A} (from to : nat) (arr : list A) : list A :=
  take (to - from) (drop from arr).

(** [arr.reverse()] (on a fresh array, as returned by [slice]). *)
Definition reverse {A} (arr : list A) : list A := rev arr.

(** ** The subset of Leaflet used by the component *)

Module Leaflet.

Record LatLng := mkLatLng { lat : Qc; lng : Qc }.

(** A [LatLngBounds] object either has no corners yet (it was built by
    [latLngBounds()] without arguments) or has both. *)
Inductive LatLngBounds :=
| NoCorners
| Corners (_southWest _northEast : LatLng).

(** [L.latLng(a)] on an array of numbers: [[lat, lng]] and
    [[lat, lng, alt]] convert, any other length gives [null]. *)
Definition latLng (a : list Qc) : option LatLng :=
  match a with
  | [x; y] => Some (mkLatLng x y)
  | [x; y; _] => Some (mkLatLng x y)
  | _ => None
  end.

(** [bounds.extend(obj)] for [obj instanceof LatLng]: the first point
    is copied into both corners, later ones widen the box. *)
Definition extend_point (b : LatLngBounds) (p : LatLng) : LatLngBounds :=
  match b with
  | NoCorners => Corners (mkLatLng (lat p) (lng p)) (mkLatLng (lat p) (lng p))
  | Corners sw ne =>
      Corners (mkLatLng (Math_min (lat p) (lat sw)) (Math_min (lng p) (lng sw)))
              (mkLatLng (Math_max (lat p) (lat ne)) (Math_max (lng p) (lng ne)))
  end.

(** [bounds.extend(obj)] for [obj instanceof LatLngBounds]: an argument
    without corners leaves [this] alone; corners are copied, never
    shared with the argument. *)
Definition extend (b obj : LatLngBounds) : LatLngBounds :=
  match obj with
  | NoCorners => b
  | Corners sw2 ne2 =>
      match b with
      | NoCorners =>
          Corners (mkLatLng (lat sw2) (lng sw2)) (mkLatLng (lat ne2) (lng ne2))
      | Corners sw ne =>
          Corners (mkLatLng (Math_min (lat sw2) (lat sw)) (Math_min (lng sw2) (lng sw)))
                  (mkLatLng (Math_max (lat ne2) (lat ne)) (Math_max (lng ne2) (lng ne)))
      end
  end.

(** [bounds.extend(arr)] for an array of numbers: converted with
    [latLng]; an array that does not convert contributes nothing. *)
Definition extend_array (b : LatLngBounds) (a : list Qc) : LatLngBounds :=
  match latLng a with
  | Some p => extend_point b p
  | None => b
  end.

(** [L.latLngBounds()] and [L.latLngBounds(latlngs)]: the constructor
    extends an empty bounds object by each element in turn. *)
Definition latLngBounds0 : LatLngBounds := NoCorners.
Definition latLngBounds (latlngs : list (list Qc)) : LatLngBounds :=
  foldl extend_array NoCorners latlngs.

(** [bounds.toBBoxString()]: west, south, east, north; [None] is the
    [TypeError] raised when a corner is [undefined]. *)
Definition toBBoxString (b : LatLngBounds) : option (list Qc) :=
  match b with
  | NoCorners => None
  | Corners sw ne => Some [lng sw; lat sw; lng ne; lat ne]
  end.

(** [bounds.contains(latlng)]: inclusive on every side.  (The first case
    cannot arise for a layer of the component: see [layers_have_corners].) *)
Definition contains (b : LatLngBounds) (p : LatLng) : bool :=
  match b with
  | NoCorners => false
  | Corners sw ne =>
      bool_decide (lat sw ≤ lat p) && bool_decide (lat p ≤ lat ne) &&
      bool_decide (lng sw ≤ lng p) && bool_decide (lng p ≤ lng ne)
  end.

End Leaflet.
Import Leaflet.

(** ** Values exchanged with the host application and the network *)

(** Property values of the plain objects handed in by the host. *)
Inductive jsval :=
| VStr (s : string)
| VNum (n : Z).

(** Objects live in a heap and are passed by reference: two tiles may
    carry the same [meta] object. *)
Record Tile := mkTile { url : string; meta : nat }.

(** The tile metadata document delivered by [$.getJSON(url)]. *)
Record TileJson := mkTileJson {
  info_name : string;
  info_bounds : list Qc;
  info_tiles : list string;
  info_minzoom : Z;
  info_maxzoom : Z;
  info_scheme : option string
}.

(** Third argument of a jQuery [fail] callback: the textual part of the
    HTTP status (possibly empty), or an exception object. *)
Inductive errorThrown :=
| ErrText (s : string)
| ErrObject (message : string).

(** [if (err)]: the empty string is the only falsy value among them. *)
Definition truthy (err : errorThrown) : bool :=
  match err with
  | ErrText s => negb (String.eqb s EmptyString)
  | ErrObject _ => true
  end.

(** [err.message]; [None] stands for [undefined]. *)
Definition message (err : errorThrown) : option string :=
  match err with
  | ErrText _ => None
  | ErrObject m => Some m
  end.

(** How a request settles. *)
Inductive response :=
| Done (info : TileJson)
| Fail (err : errorThrown).

Inductive readyState := Pending | Settled | Aborted.

Record jqXHR := mkXHR { xhr_url : string; xhr_state : readyState }.

(** A Leaflet tile layer as the component configures it: the URL template
    [info.tiles[0]] ([None] for [undefined]), the options passed to
    [Leaflet.tileLayer], the current opacity (Leaflet's default is 1),
    whether the layer is on a map ([layer._map] is set), how many times
    its popup was opened, and the object under [Symbol.for("meta")]. *)
Record TileLayer := mkTileLayer {
  urlTemplate : option string;
  options_bounds : LatLngBounds;
  options_minZoom : Z;
  options_maxZoom : Z;
  options_tms : bool;
  options_opacity : Qc;
  _map : bool;
  popupOpened : nat;
  layer_meta : nat
}.

(** The Leaflet map object behind [this.map]: its identity, whether
    [remove()] was called, the bounds last given to [fitBounds], the
    overlays of the layers control (label to position in [imageryLayers])
    and whether the click listener is registered. *)
Record LMap := mkLMap {
  handle : nat;
  removed : bool;
  fitted : option LatLngBounds;
  autolayers : option (gmap string nat);
  onClick : bool
}.

(** Bookkeeping of one [async.each] call: the number of iteratees that
    reported success and whether the final callback was consumed. *)
Record Each := mkEach { each_length : nat; completed : nat; called : bool }.

(** Instance fields and props of the component ([this]); [None] stands
    for [null] in [mapBounds] and for [undefined] elsewhere. *)
Record Map := mkMap {
  props_tiles : list Tile;
  props_opacity : Qc;
  props_showBackground : bool;
  state_error : option string;
  imageryLayers : list TileLayer;
  basemaps : list string;
  mapBounds : option LatLngBounds;
  map : option LMap;
  tileJsonRequests : option (list jqXHR)
}.

(** Entries of the page-wide polygon list. *)
Record Polygon := mkPolygon {
  polygonPoints : list LatLng;
  color : string;
  polygon_map : option nat
}.

(** The properties of the global object written by the component. *)
Record Window := mkWindow {
  window_map : option nat;
  polygonArray : option (list (string * Polygon));
  createPolygon_defined : bool
}.

(** The page: one component instance, the closure state of its
    [async.each] call, the heap of [meta] objects and the global object. *)
Record World := mkWorld {
  this : Map;
  loader : Each;
  heap : gmap nat (gmap string jsval);
  window : Window
}.

(** Statements either complete or throw; in both cases the mutations made
    so far stay. *)
Inductive outcome :=
| Returns (w : World)
| Throws (exn : string) (w : World).

Definition world_of (o : outcome) : World :=
  match o with Returns w | Throws _ w => w end.

Definition throws (o : outcome) : bool :=
  match o with Returns _ => false | Throws _ _ => true end.

(** *** Field updates *)

Definition with_this (f : Map → Map) (w : World) : World :=
  mkWorld (f (this w)) (loader w) (heap w) (window w).
Definition with_loader (f : Each → Each) (w : World) : World :=
  mkWorld (this w) (f (loader w)) (heap w) (window w).
Definition with_heap (f : gmap nat (gmap string jsval) → gmap nat (gmap string jsval))
    (w : World) : World :=
  mkWorld (this w) (loader w) (f (heap w)) (window w).
Definition with_window (f : Window → Window) (w : World) : World :=
  mkWorld (this w) (loader w) (heap w) (f (window w)).

Definition set_error (e : option string) (m : Map) : Map :=
  mkMap (props_tiles m) (props_opacity m) (props_showBackground m) e
        (imageryLayers m) (basemaps m) (mapBounds m) (map m) (tileJsonRequests m).
Definition set_imageryLayers (ls : list TileLayer) (m : Map) : Map :=
  mkMap (props_tiles m) (props_opacity m) (props_showBackground m) (state_error m)
        ls (basemaps m) (mapBounds m) (map m) (tileJsonRequests m).
Definition set_basemaps (bs : list string) (m : Map) : Map :=
  mkMap (props_tiles m) (props_opacity m) (props_showBackground m) (state_error m)
        (imageryLayers m) bs (mapBounds m) (map m) (tileJsonRequests m).
Definition set_mapBounds (b : option LatLngBounds) (m : Map) : Map :=
  mkMap (props_tiles m) (props_opacity m) (props_showBackground m) (state_error m)
        (imageryLayers m) (basemaps m) b (map m) (tileJsonRequests m).
Definition set_map (lm : option LMap) (m : Map) : Map :=
  mkMap (props_tiles m) (props_opacity m) (props_showBackground m) (state_error m)
        (imageryLayers m) (basemaps m) (mapBounds m) lm (tileJsonRequests m).
Definition set_tileJsonRequests (rs : option (list jqXHR)) (m : Map) : Map :=
  mkMap (props_tiles m) (props_opacity m) (props_showBackground m) (state_error m)
        (imageryLayers m) (basemaps m) (mapBounds m) (map m) rs.
Definition set_opacity_prop (v : Qc) (m : Map) : Map :=
  mkMap (props_tiles m) v (props_showBackground m) (state_error m)
        (imageryLayers m) (basemaps m) (mapBounds m) (map m) (tileJsonRequests m).

Definition set_layer_map (b : bool) (l : TileLayer) : TileLayer :=
  mkTileLayer (urlTemplate l) (options_bounds l) (options_minZoom l) (options_maxZoom l)
              (options_tms l) (options_opacity l) b (popupOpened l) (layer_meta l).
Definition set_layer_opacity (v : Qc) (l : TileLayer) : TileLayer :=
  mkTileLayer (urlTemplate l) (options_bounds l) (options_minZoom l) (options_maxZoom l)
              (options_tms l) v (_map l) (popupOpened l) (layer_meta l).
Definition set_layer_popupOpened (n : nat) (l : TileLayer) : TileLayer :=
  mkTileLayer (urlTemplate l) (options_bounds l) (options_minZoom l) (options_maxZoom l)
              (options_tms l) (options_opacity l) (_map l) n (layer_meta l).

Definition set_xhr_state (s : readyState) (x : jqXHR) : jqXHR := mkXHR (xhr_url x) s.

Definition set_window_map (h : option nat) (g : Window) : Window :=
  mkWindow h (polygonArray g) (createPolygon_defined g).
Definition set_polygonArray (a : option (list (string * Polygon))) (g : Window) : Window :=
  mkWindow (window_map g) a (createPolygon_defined g).
Definition set_createPolygon (g : Window) : Window :=
  mkWindow (window_map g) (polygonArray g) true.

(** ** Layer methods *)

(** [layer.setOpacity(v)] *)
Definition setOpacity (v : Qc) (layer : TileLayer) : TileLayer :=
  set_layer_opacity v layer.

(** [layer.openPopup()]: opens the bound popup when the layer is on a map. *)
Definition openPopup (layer : TileLayer) : TileLayer :=
  if _map layer then set_layer_popupOpened (S (popupOpened layer)) layer else layer.

(** ** Map.jsx *)

(** The state a freshly constructed component starts from (constructor and
    [defaultProps]); [tiles], [opacity] and [showBackground] are props. *)
Definition constructor (tiles : list Tile) (opacity : Qc) (showBackground : bool) : Map :=
  mkMap tiles opacity showBackground (Some EmptyString) [] [] None None None.

(** [componentDidUpdate]: every element of [imageryLayers] gets
    [props.opacity / 100]. *)
Definition componentDidUpdate (w : World) : World :=
  with_this (λ m,
    set_imageryLayers (setOpacity (props_opacity m / Qc_of_Z 100) <$> imageryLayers m) m) w.

(** [this.setState({error})]: React re-renders, which ends with
    [componentDidUpdate]. *)
Definition setState_error (e : option string) (w : World) : World :=
  componentDidUpdate (with_this (set_error e) w).

(** Key under which [overlays[meta.name] = layer] stores a layer. *)
Definition meta_name (h : gmap nat (gmap string jsval)) (layer : TileLayer) : string :=
  match default ∅ (h !! layer_meta layer) !! "name" with
  | Some (VStr s) => s
  | Some (VNum n) => pretty n
  | None => "undefined"
  end.

(** The [overlays] object built by the success branch; layers are named by
    their position in [imageryLayers]. *)
Definition build_overlays (h : gmap nat (gmap string jsval)) (layers : list TileLayer)
    : gmap string nat :=
  foldl (λ overlays il, <[meta_name h il.2 := il.1]> overlays) ∅ (imap pair layers).

(** [this.map.fitBounds(bounds)]: needs a bounds object with corners. *)
Definition fitBounds (bounds : option LatLngBounds) (lm : LMap) : option LMap :=
  match bounds with
  | Some (Corners sw ne) =>
      Some (mkLMap (handle lm) (removed lm) (Some (Corners sw ne)) (autolayers lm) (onClick lm))
  | _ => None
  end.

(** The final callback handed to [async.each] (lines 208-236). *)
Definition callback (err : option errorThrown) (w : World) : outcome :=
  if from_option truthy false err then
    Returns (setState_error (err ≫= message) w)
  else
    match map (this w) ≫= fitBounds (mapBounds (this w)) with
    | None => Throws "TypeError" w
    | Some lm =>
        let overlays := build_overlays (heap w) (imageryLayers (this w)) in
        Returns (with_this (set_map
          (Some (mkLMap (handle lm) (removed lm) (fitted lm) (Some overlays) true))) w)
    end.

(** [async.each]: the per-item [done] continuation.  The final callback is
    wrapped in [once]: it runs for the first truthy error, or when every
    item has reported without one, and never again. *)
Definition once_callback (err : option errorThrown) (w : World) : outcome :=
  if called (loader w) then Returns w
  else callback err
         (with_loader (λ e, mkEach (each_length e) (completed e) true) w).

Definition iteratorCallback (err : option errorThrown) (w : World) : outcome :=
  if from_option truthy false err then once_callback err w
  else
    let w' := with_loader (λ e, mkEach (each_length e) (S (completed e)) (called e)) w in
    if decide (completed (loader w') = each_length (loader w'))
    then once_callback None w'
    else Returns w'.

(** Lines 169-171: the document lists [west, south, east, north]; each
    half is sliced off and reversed into a [lat, lng] pair. *)
Definition layer_bounds (info : TileJson) : LatLngBounds :=
  latLngBounds [reverse (slice 0 2 (info_bounds info));
                reverse (slice 2 4 (info_bounds info))].

(** Lines 172-195: the tile layer as it is when pushed: added to the map,
    popup bound, tagged with the tile's [meta] object. *)
Definition new_layer (tile : Tile) (info : TileJson) : TileLayer :=
  mkTileLayer (head (info_tiles info)) (layer_bounds info)
              (info_minzoom info) (info_maxzoom info)
              (bool_decide (info_scheme info = Some "tms")) 1 true 0 (meta tile).

(** [meta.name = info.name] on the heap. *)
Definition write_name (r : nat) (name : string)
    (h : gmap nat (gmap string jsval)) : gmap nat (gmap string jsval) :=
  <[r := <["name" := VStr name]> (default ∅ (h !! r))]> h.

(** The [.done(info => ...)] handler of one tile (lines 168-204).  The
    popup text of line 185 needs both corners of the bounds: a document
    whose bounds array yields none makes the handler throw before the
    layer is tagged, pushed or reported to [async.each]; the layer object
    of line 172 is then referenced by nothing the component keeps. *)
Definition on_done (tile : Tile) (info : TileJson) (w : World) : outcome :=
  let bounds := layer_bounds info in
  let layer := new_layer tile info in
  match toBBoxString (options_bounds layer) with
  | None => Throws "TypeError" w
  | Some _ =>
      let w1 := with_heap (write_name (meta tile) (info_name info)) w in
      let w2 := with_this (λ m, set_imageryLayers (imageryLayers m ++ [layer]) m) w1 in
      let w3 := with_this (λ m,
        set_mapBounds (Some (extend (default latLngBounds0 (mapBounds m)) bounds)) m) w2 in
      iteratorCallback None w3
  end.

(** The [.fail((_, __, err) => done(err))] handler. *)
Definition on_fail (err : errorThrown) (w : World) : outcome :=
  iteratorCallback (Some err) w.

Definition set_request (i : nat) (s : readyState) (m : Map) : Map :=
  set_tileJsonRequests (alter (set_xhr_state s) i <$> tileJsonRequests m) m.

(** The network answers request [i]; a request that is no longer pending
    fires no handler. *)
Definition respond (i : nat) (r : response) (w : World) : outcome :=
  match default [] (tileJsonRequests (this w)) !! i, props_tiles (this w) !! i with
  | Some x, Some tile =>
      match xhr_state x with
      | Pending =>
          let w' := with_this (set_request i Settled) w in
          match r with
          | Done info => on_done tile info w'
          | Fail err => on_fail err w'
          end
      | _ => Returns w
      end
  | _, _ => Returns w
  end.

(** [window.createPolygon(polygonPoints, color, name)] (lines 108-128):
    appends to the page-wide [polygonArray] and draws on [window.map]. *)
Definition createPolygon (points : list LatLng) (col name : string) (w : World) : outcome :=
  match polygonArray (window w) with
  | None => Throws "ReferenceError" w
  | Some arr =>
      let polygon := mkPolygon points col (window_map (window w)) in
      let w' := with_window (set_polygonArray (Some (arr ++ [(name, polygon)]))) w in
      match window_map (window w) with
      | None => Throws "TypeError" w'
      | Some _ => Returns w'
      end
  end.

(** [componentDidMount] (lines 49-237); [h] is the identity of the Leaflet
    map created by [L.map(this.container, ...)]. *)
Definition componentDidMount (h : nat) (w : World) : outcome :=
  let tiles := props_tiles (this w) in
  let w1 := with_this (set_map (Some (mkLMap h false None None false))) w in
  let w2 := with_window (set_window_map (Some h)) w1 in
  let w3 := with_this (set_basemaps
    (if props_showBackground (this w2)
     then ["Google Maps Hybrid"; "ESRI Satellite"; "OSM Mapnik"] else [])) w2 in
  let w4 := with_window (λ g, set_createPolygon (set_polygonArray (Some []) g)) w3 in
  let w5 := with_this (set_tileJsonRequests (Some [])) w4 in
  let w6 := with_loader (λ _, mkEach (length tiles) 0 false) w5 in
  match tiles with
  | [] => once_callback None w6
  | _ =>
      Returns (with_this (set_tileJsonRequests
        (Some ((λ tile, mkXHR (url tile) Pending) <$> tiles))) w6)
  end.

(** [this.map.remove()]: the map lets go of its layers. *)
Definition map_remove (m : Map) : option Map :=
  lm ← map m;
  Some (set_imageryLayers (set_layer_map false <$> imageryLayers m)
         (set_map (Some (mkLMap (handle lm) true (fitted lm) (autolayers lm) (onClick lm))) m)).

(** [this.tileJsonRequest] (singular): no statement of the class assigns
    this field, reading it gives [undefined]. *)
Definition tileJsonRequest (m : Map) : option nat := None.

(** [jqXHR.abort()]: a pending request is rejected with status [abort]. *)
Definition abort (i : nat) (w : World) : outcome :=
  match default [] (tileJsonRequests (this w)) !! i with
  | Some x =>
      match xhr_state x with
      | Pending => on_fail (ErrText "abort") (with_this (set_request i Aborted) w)
      | _ => Returns w
      end
  | None => Returns w
  end.

(** [this.tileJsonRequests.forEach(tileJsonRequest =>
      this.tileJsonRequest.abort())]: the body ignores its parameter and
    dereferences the instance field. *)
Fixpoint forEach_abort (requests : list jqXHR) (w : World) : outcome :=
  match requests with
  | [] => Returns w
  | _ :: rest =>
      match tileJsonRequest (this w) with
      | None => Throws "TypeError" w
      | Some i =>
          match abort i w with
          | Returns w' => forEach_abort rest w'
          | Throws e w' => Throws e w'
          end
      end
  end.

(** [componentWillUnmount] (lines 245-252). *)
Definition componentWillUnmount (w : World) : outcome :=
  match map_remove (this w) with
  | None => Throws "TypeError" w
  | Some m =>
      let w1 := with_this (λ _, m) w in
      match tileJsonRequests (this w1) with
      | None => Returns w1
      | Some requests =>
          match forEach_abort requests w1 with
          | Returns w2 => Returns (with_this (set_tileJsonRequests (Some [])) w2)
          | Throws e w2 => Throws e w2
          end
      end
  end.

(** The click listener registered by the success branch (lines 226-234):
    the first element of [imageryLayers] that is on the map and whose
    bounds contain the point gets [openPopup()], then the loop breaks. *)
Fixpoint click_handler (latlng : LatLng) (layers : list TileLayer) : list TileLayer :=
  match layers with
  | [] => []
  | layer :: rest =>
      if _map layer && contains (options_bounds layer) latlng
      then openPopup layer :: rest
      else layer :: click_handler latlng rest
  end.

(** A click on the map surface reaches the listener only once it is
    registered and while the map exists. *)
Definition click (latlng : LatLng) (w : World) : World :=
  match map (this w) with
  | Some lm =>
      if onClick lm && negb (removed lm)
      then with_this (λ m, set_imageryLayers (click_handler latlng (imageryLayers m)) m) w
      else w
  | None => w
  end.

(** The user ticks or unticks an overlay in the layers control, which calls
    [map.addLayer] or [map.removeLayer] on it. *)
Definition toggle_overlay (name : string) (w : World) : World :=
  let overlays : gmap string nat := default ∅ (map (this w) ≫= autolayers) in
  match overlays !! name with
  | Some i =>
      with_this (λ m,
        set_imageryLayers (alter (λ l, set_layer_map (negb (_map l)) l) i (imageryLayers m)) m) w
  | None => w
  end.

(** ** The event loop *)

Inductive event :=
| Mount (h : nat)
| Respond (i : nat) (r : response)
| Click (latlng : LatLng)
| NewOpacity (v : Qc)
| ToggleOverlay (name : string)
| CreatePolygon (points : list LatLng) (col name : string)
| Unmount.

Definition step (w : World) (e : event) : outcome :=
  match e with
  | Mount h => componentDidMount h w
  | Respond i r => respond i r w
  | Click p => Returns (click p w)
  | NewOpacity v => Returns (componentDidUpdate (with_this (set_opacity_prop v) w))
  | ToggleOverlay n => Returns (toggle_overlay n w)
  | CreatePolygon pts c n => createPolygon pts c n w
  | Unmount => componentWillUnmount w
  end.

(** An exception ends the running handler only; the page goes on. *)
Definition run (w : World) (es : list event) : World :=
  foldl (λ w e, world_of (step w e)) w es.

(** A page on which the component has just been constructed. *)
Definition initial (tiles : list Tile) (opacity : Qc) (showBackground : bool)
    (h : gmap nat (gmap string jsval)) : World :=
  mkWorld (constructor tiles opacity showBackground) (mkEach 0 0 false) h
          (mkWindow None None false).

(** [loadAll]: mount, then the network answers in the order [answers]. *)
Definition loadAll (tiles : list Tile) (opacity : Qc) (bg : bool)
    (h : gmap nat (gmap string jsval)) (answers : list (nat * response)) : World :=
  run (world_of (componentDidMount 0 (initial tiles opacity bg h)))
      ((λ a, Respond a.1 a.2) <$> answers).

(** Decimal literals of the documents: [Qd n d] is [n/d]. *)
Definition Qd (n : Z) (d : positive) : Qc := Q2Qc (n # d).

(** ** Vocabulary of the statements *)

(** Fields of a layer other than its opacity. *)
Definition same_layers (ls ls' : list TileLayer) : Prop :=
  setOpacity 1 <$> ls' = setOpacity 1 <$> ls.

(** The part of the world that neither the final callback nor the
    per-item continuation writes. *)
Record cb_frame (w w' : World) : Prop := mk_cb_frame {
  frame_tiles : props_tiles (this w') = props_tiles (this w);
  frame_opacity : props_opacity (this w') = props_opacity (this w);
  frame_mapBounds : mapBounds (this w') = mapBounds (this w);
  frame_requests : tileJsonRequests (this w') = tileJsonRequests (this w);
  frame_layers : same_layers (imageryLayers (this w)) (imageryLayers (this w'));
  frame_length : each_length (loader w') = each_length (loader w);
  frame_heap : heap w' = heap w;
  frame_window : window w' = window w
}.

Definition pending (w : World) (i : nat) : Prop :=
  ∃ x, default [] (tileJsonRequests (this w)) !! i = Some x ∧ xhr_state x = Pending.

Definition in_flight (w : World) (answers : list (nat * response)) : Prop :=
  NoDup answers.*1 ∧
  ∀ a, a ∈ answers → pending w a.1 ∧ is_Some (props_tiles (this w) !! a.1).

(** The union of a family of bounds, taken from the bounds object without
    corners. *)
Definition union_all (bs : list LatLngBounds) : LatLngBounds :=
  foldl extend latLngBounds0 bs.

Definition answer_all (doc : nat → TileJson) (order : list nat) : list (nat * response) :=
  (λ i, (i, Done (doc i))) <$> order.

(** The first answer that reports a truthy error. *)
Fixpoint first_error (answers : list (nat * response)) : option errorThrown :=
  match answers with
  | [] => None
  | (_, Fail err) :: rest => if truthy err then Some err else first_error rest
  | (_, Done _) :: rest => first_error rest
  end.

(** A document from which the [done] handler gets a bounds object with
    corners. *)
Definition has_corners (b : LatLngBounds) : bool :=
  match b with NoCorners => false | Corners _ _ => true end.
Definition usable (info : TileJson) : bool := has_corners (layer_bounds info).

(** The wire format gives [bounds] four numbers. *)
Definition well_formed (info : TileJson) : Prop := length (info_bounds info) = 4%nat.

(** The layer, if any, that an answer makes the component push. *)
Definition layers_of (tile : Tile) (r : response) : list TileLayer :=
  match r with
  | Done info => if usable info then [new_layer tile info] else []
  | Fail _ => []
  end.

(** The layers built from the successful answers, in order of arrival. *)
Definition loaded_layers (tiles : list Tile) (answers : list (nat * response))
    : list TileLayer :=
  answers ≫= λ a, from_option (λ tile, layers_of tile a.2) [] (tiles !! a.1).

(** The guard of line 229. *)
Definition hit (latlng : LatLng) (layer : TileLayer) : bool :=
  _map layer && contains (options_bounds layer) latlng.

(** Reading property [k] of the object at [r]. *)
Definition property (h : gmap nat (gmap string jsval)) (r : nat) (k : string)
    : option jsval :=
  default ∅ (h !! r) !! k.

(** ** Scenarios *)

Definition docA : TileJson :=
  mkTileJson "A" [Qd (-92) 10; Qd 386 10; Qd (-91) 10; Qd 387 10]
             ["a/{z}/{x}/{y}.png"] 0 18 (Some "tms").
Definition docB : TileJson :=
  mkTileJson "B" [Qd (-93) 10; Qd 385 10; Qd (-92) 10; Qd 386 10]
             ["b/{z}/{x}/{y}.png"] 0 18 None.
Definition tilesAB : list Tile := [mkTile "A" 0; mkTile "B" 1].
Definition heapAB : gmap nat (gmap string jsval) :=
  {[ 0%nat := {[ "project" := VNum 1; "task" := VNum 7 ]};
     1%nat := {[ "project" := VNum 1; "task" := VNum 8 ]} ]}.

(** A box given with its east edge first (west = 170, east = -170). *)
Definition docX : TileJson :=
  mkTileJson "X" [Qc_of_Z 170; Qc_of_Z (-10); Qc_of_Z (-170); Qc_of_Z 10]
             ["x/{z}/{x}/{y}.png"] 0 18 None.

(** Two overlapping tiles. *)
Definition docP : TileJson :=
  mkTileJson "P" [Qc_of_Z 0; Qc_of_Z 0; Qc_of_Z 10; Qc_of_Z 10] ["p/{z}/{x}/{y}.png"] 0 18 None.
Definition docQ : TileJson :=
  mkTileJson "Q" [Qc_of_Z 5; Qc_of_Z 5; Qc_of_Z 15; Qc_of_Z 15] ["q/{z}/{x}/{y}.png"] 0 18 None.
Definition tilesPQ : list Tile := [mkTile "P" 0; mkTile "Q" 1].

(** Both tiles loaded, P first; the user has unticked P in the control. *)
Definition worldPQ : World :=
  run (loadAll tilesPQ (Qc_of_Z 100) false heapAB [(0%nat, Done docP); (1%nat, Done docQ)])
      [ToggleOverlay "P"].

(** A document with a single number where four are due. *)
Definition docS : TileJson :=
  mkTileJson "S" [Qc_of_Z 3] ["s/{z}/{x}/{y}.png"] 0 18 None.

(** * ProjectListItem.jsx: the upload state of a project row

    The component keeps the state of a Dropzone upload under
    [this.state.upload] and changes it from Dropzone's events.  Those
    events are emitted from Dropzone's own DOM listeners and XHR callbacks,
    outside React's event dispatch, where React 15 applies [setState] at
    once: each [setUploadState] below sees the state left by the previous
    one. *)

Module ProjectListItem.

(** A value found under [id] in the server's answer ([IdUndefined]: no
    such field). *)
Inductive idval :=
| IdUndefined
| IdNull
| IdBool (b : bool)
| IdNum (n : Z)
| IdStr (s : string).

(** [!!v] *)
Definition truthy_id (v : idval) : bool :=
  match v with
  | IdUndefined | IdNull => false
  | IdBool b => b
  | IdNum n => negb (n =? 0)%Z
  | IdStr s => negb (String.eqb s EmptyString)
  end.

(** [this.state.upload] *)
Record Upload := mkUpload {
  uploading : bool;
  showEditTask : bool;
  error : string;
  progress : Qc;
  totalCount : nat;
  totalBytes : Z;
  totalBytesSent : Z;
  savedTaskInfo : bool;
  taskId : idval
}.

(** [getDefaultUploadState()] (lines 61-73). *)
Definition getDefaultUploadState : Upload :=
  mkUpload false false EmptyString 0 0 0 0 false IdNull.

(** The object handed to [$merge]: the keys it has, with their values. *)
Record Props := mkProps {
  p_uploading : option bool;
  p_showEditTask : option bool;
  p_error : option string;
  p_progress : option Qc;
  p_totalCount : option nat;
  p_totalBytes : option Z;
  p_totalBytesSent : option Z;
  p_savedTaskInfo : option bool;
  p_taskId : option idval
}.

Definition no_props : Props := mkProps None None None None None None None None None.

(** An upload state used as a [$merge] argument has every key. *)
Definition all_props (u : Upload) : Props :=
  mkProps (Some (uploading u)) (Some (showEditTask u)) (Some (error u)) (Some (progress u))
          (Some (totalCount u)) (Some (totalBytes u)) (Some (totalBytesSent u))
          (Some (savedTaskInfo u)) (Some (taskId u)).

(** [update(upload, {$merge: props})]: the keys of [props] replace those
    of [upload]. *)
Definition merge (u : Upload) (p : Props) : Upload :=
  mkUpload (default (uploading u) (p_uploading p))
           (default (showEditTask u) (p_showEditTask p))
           (default (error u) (p_error p))
           (default (progress u) (p_progress p))
           (default (totalCount u) (p_totalCount p))
           (default (totalBytes u) (p_totalBytes p))
           (default (totalBytesSent u) (p_totalBytesSent p))
           (default (savedTaskInfo u) (p_savedTaskInfo p))
           (default (taskId u) (p_taskId p)).

(** [props.data]: the project as the server describes it. *)
Record Project := mkProject {
  project_id : Z;
  project_name : string;
  project_description : string;
  project_tasks : list Z
}.

(** [this.state] (lines 17-24). *)
Record State := mkState {
  showTaskList : bool;
  updatingTask : bool;
  upload : Upload;
  state_error : string;
  data : Project;
  refreshing : bool
}.

(** What [editTaskPanel.getTaskInfo()] returns: the task's name, its
    options and the processing node chosen in the panel
    ([selectedNode.id]). *)
Record TaskInfo := mkTaskInfo {
  task_name : string;
  task_options : list (string * string);
  selectedNode_id : Z
}.

(** The [PATCH] request of [updateTaskInfo]: the project and task of its
    url and the fields of its body. *)
Record Request := mkRequest {
  request_project : Z;
  request_task : idval;
  request_name : string;
  request_options : list (string * string);
  request_processing_node : Z
}.

(** The instance: its state and the [PATCH] requests it has issued, the
    last of which is [this.updateTaskRequest]. *)
Record Instance := mkInstance {
  state : State;
  updateTaskRequests : list Request
}.

(** [constructor(props)] *)
Definition constructor (project : Project) : Instance :=
  mkInstance (mkState false false getDefaultUploadState EmptyString project false) [].

Definition set_upload (u : Upload) (c : Instance) : Instance :=
  mkInstance (mkState (showTaskList (state c)) (updatingTask (state c)) u
                      (state_error (state c)) (data (state c)) (refreshing (state c)))
             (updateTaskRequests c).
Definition set_updatingTask (b : bool) (c : Instance) : Instance :=
  mkInstance (mkState (showTaskList (state c)) b (upload (state c))
                      (state_error (state c)) (data (state c)) (refreshing (state c)))
             (updateTaskRequests c).
Definition set_showTaskList (b : bool) (c : Instance) : Instance :=
  mkInstance (mkState b (updatingTask (state c)) (upload (state c))
                      (state_error (state c)) (data (state c)) (refreshing (state c)))
             (updateTaskRequests c).

(** [setUploadState(props)] (lines 79-85). *)
Definition setUploadState (props : Props) (c : Instance) : Instance :=
  set_upload (merge (upload (state c)) props) c.

(** [resetUploadState()] (lines 75-77). *)
Definition resetUploadState (c : Instance) : Instance :=
  setUploadState (all_props getDefaultUploadState) c.

(** A function either returns or throws an [Error] with a message. *)
Inductive result :=
| Ok (c : Instance)
| Threw (message : string) (c : Instance).

(** [updateTaskInfo(taskId, taskInfo)] (lines 161-191), up to the moment
    the request is sent; [None] is a falsy [taskInfo].  The url takes the
    task from [this.state.upload.taskId]. *)
Definition updateTaskInfo (id : idval) (taskInfo : option TaskInfo) (c : Instance) : result :=
  if negb (truthy_id id) then Threw "taskId is not set" c
  else
    match taskInfo with
    | None => Threw "taskId is not set" c
    | Some info =>
        let c1 := setUploadState
          (mkProps None (Some false) None None None None None None None) c in
        let c2 := set_updatingTask true c1 in
        Ok (mkInstance (state c2)
              (updateTaskRequests c2 ++
               [mkRequest (project_id (data (state c2))) (taskId (upload (state c2)))
                          (task_name info) (task_options info) (selectedNode_id info)]))
    end.

(** What lines 130-131 make of the body of the first file's answer: either
    [JSON.parse] or the access to [response.id] throws, with a message, or
    there is a value under [id] (possibly [undefined]); [shown] is the
    text of the answer inside a template string. *)
Inductive parsed :=
| Raises (message : string)
| Answer (id : idval) (shown : string).

(** A file as Dropzone reports it. *)
Record File := mkFile { status : string; xhr_response : parsed }.

(** [files.length > 0 && files.filter(file => file.status !== "success").length === 0] *)
Definition success (files : list File) : bool :=
  bool_decide (0 < length files)%nat &&
  bool_decide (length (filter (λ file, status file ≠ "success") files) = 0%nat).

Definition invalid_response (message : string) : Props :=
  mkProps None None (Some ("Invalid response from server: " +:+ message))
          None None None None None None.

(** The listener of [completemultiple] (lines 121-152); [taskInfo] is
    what the edit panel would return if asked. *)
Definition completemultiple (files : list File) (taskInfo : option TaskInfo)
    (c : Instance) : Instance :=
  if success files then
    let c1 := setUploadState
      (mkProps (Some false) None None None None None None None None) c in
    match xhr_response <$> head files with
    | Some (Answer id shown) =>
        if negb (truthy_id id) then
          setUploadState (invalid_response
            ("Expected id field, but none given (" +:+ shown +:+ ")")) c1
        else
          let c2 := setUploadState
            (mkProps None None None None None None None None (Some id)) c1 in
          if savedTaskInfo (upload (state c2)) then
            match updateTaskInfo id taskInfo c2 with
            | Ok c3 => c3
            | Threw message c3 => setUploadState (invalid_response message) c3
            end
          else c2
    | Some (Raises message) => setUploadState (invalid_response message) c1
    | None => c1
    end
  else
    setUploadState
      (mkProps (Some false) None
         (Some "Could not upload all files. An error occured. Please try again.")
         None None None None None None) c.

(** What can happen to the row: Dropzone's events (lines 105-158) and the
    clicks handled by [toggleTaskList], [closeUploadError] and
    [handleUpload]. *)
Inductive event :=
| TotalUploadProgress (progress : Qc) (totalBytes totalBytesSent : Z)
| AddedFile
| ProcessingMultiple
| CompleteMultiple (files : list File) (taskInfo : option TaskInfo)
| Reset
| DragEnter
| ToggleTaskList
| CloseUploadError
| HandleUpload.

Definition step (c : Instance) (e : event) : Instance :=
  match e with
  | TotalUploadProgress p b s =>
      setUploadState (mkProps None None None (Some p) None (Some b) (Some s) None None) c
  | AddedFile =>
      setUploadState (mkProps None None None None
        (Some (totalCount (upload (state c)) + 1)%nat) None None None None) c
  | ProcessingMultiple =>
      setUploadState (mkProps (Some true) (Some true) None None None None None None None) c
  | CompleteMultiple files taskInfo => completemultiple files taskInfo c
  | Reset => resetUploadState c
  | DragEnter => resetUploadState c
  | ToggleTaskList => set_showTaskList (negb (showTaskList (state c))) c
  | CloseUploadError =>
      setUploadState (mkProps None None (Some EmptyString) None None None None None None) c
  | HandleUpload => resetUploadState c
  end.

Definition run (c : Instance) (es : list event) : Instance := foldl step c es.

(** The events that start the upload state afresh. *)
Definition resets (e : event) : bool :=
  match e with Reset | DragEnter | HandleUpload => true | _ => false end.

(** The number of files added since the upload state was last reset. *)
Fixpoint added_since_reset (count : nat) (es : list event) : nat :=
  match es with
  | [] => count
  | AddedFile :: es => added_since_reset (S count) es
  | e :: es => if resets e then added_since_reset 0 es else added_since_reset count es
  end.

(** The fields of the instance that [setUploadState] cannot reach. *)
Definition outside_upload (c : Instance) : bool * string * Project * bool :=
  (showTaskList (state c), state_error (state c), data (state c), refreshing (state c)).

(** Whether the event makes [updateTaskInfo] send its request: the end of
    a transfer in which every file succeeded, answered with a truthy [id],
    when the task options have been saved (line 137) and the edit panel
    hands out a task description. *)
Definition sends_update (c : Instance) (e : event) : bool :=
  match e with
  | CompleteMultiple files (Some info) =>
      success files && savedTaskInfo (upload (state c)) &&
      match xhr_response <$> head files with
      | Some (Answer id shown) => truthy_id id
      | _ => false
      end
  | _ => false
  end.

(** The text shown when the transfer itself failed (line 149). *)
Definition could_not_upload : string :=
  "Could not upload all files. An error occured. Please try again.".

End ProjectListItem.

(** ** Further vocabulary *)

(** The two corners that a document with bounds
    [west, south, east, north] names: (south, west) and (north, east). *)
Definition document_corners (info : TileJson) : list LatLng :=
  match info_bounds info with
  | [west; south; east; north] => [mkLatLng south west; mkLatLng north east]
  | _ => []
  end.

(** [b] is the smallest box around the points [pts]: no corners when there
    is no point; otherwise every point lies between the corners on both
    axes, and each of the four sides passes through one of the points. *)
Definition bounding (pts : list LatLng) (b : LatLngBounds) : Prop :=
  match b with
  | NoCorners => pts = []
  | Corners sw ne =>
      (∀ p, p ∈ pts →
         lat sw ≤ lat p ∧ lat p ≤ lat ne ∧ lng sw ≤ lng p ∧ lng p ≤ lng ne) ∧
      (∃ p, p ∈ pts ∧ lat p = lat sw) ∧
      (∃ p, p ∈ pts ∧ lng p = lng sw) ∧
      (∃ p, p ∈ pts ∧ lat p = lat ne) ∧
      (∃ p, p ∈ pts ∧ lng p = lng ne)
  end.

(** A click reaches the listener: it is registered (line 226) and the map
    has not been removed. *)
Definition listening (w : World) : bool :=
  match map (this w) with
  | Some lm => onClick lm && negb (removed lm)
  | None => false
  end.

(** A bounds object whose south-west corner is not north or east of its
    north-east corner. *)
Definition ordered (b : LatLngBounds) : Prop :=
  match b with
  | NoCorners => True
  | Corners sw ne => lat sw ≤ lat ne ∧ lng sw ≤ lng ne
  end.

(** The aggregate bounds with [null] read as line 199 reads it. *)
Definition aggregate (w : World) : LatLngBounds :=
  default latLngBounds0 (mapBounds (this w)).

(** The events that answer requests. *)
Definition answers_events (answers : list (nat * response)) : list event :=
  (λ a, Respond a.1 a.2) <$> answers.

(** The polygons that the [createPolygon] calls among [es] draw on map [h]. *)
Definition polygons_of (h : nat) (es : list event) : list (string * Polygon) :=
  es ≫= λ e,
    match e with
    | CreatePolygon points col name => [(name, mkPolygon points col (Some h))]
    | _ => []
    end.

(** The instance has its map, and one request per tile, in the order of
    the tiles, none of them aborted. *)
Definition requests_mirror (w : World) : Prop :=
  is_Some (map (this w)) ∧
  ∃ rs, tileJsonRequests (this w) = Some rs ∧
        xhr_url <$> rs = url <$> props_tiles (this w) ∧
        Forall (λ x, xhr_state x ≠ Aborted) rs.

(** An answer that makes its tile report to [async.each] without an
    error: a usable document, or a failure whose error is falsy. *)
Definition counts (r : response) : bool :=
  match r with
  | Done info => usable info
  | Fail err => negb (truthy err)
  end.

(** An answer that [async.each] does not take for an error. *)
Definition quiet (r : response) : Prop :=
  match r with Done _ => True | Fail err => truthy err = false end.

Definition is_Mount (e : event) : bool :=
  match e with Mount _ => true | _ => false end.

(** * Properties *)

(** ** Order facts on coordinates *)

Ltac qc_order :=
  unfold Math_min, Math_max;
  repeat case_decide; try reflexivity;
  repeat match goal with
         | H : ¬ (_ ≤ _) |- _ => apply Qcnot_le_lt, Qclt_le_weak in H
         end;
  try apply Qcle_antisym; eauto using Qcle_trans, Qcle_refl.

Lemma Math_min_comm a b : Math_min a b = Math_min b a.
Proof. qc_order. Qed.

Lemma Math_max_comm a b : Math_max a b = Math_max b a.
Proof. qc_order. Qed.

Lemma Math_min_assoc a b c : Math_min a (Math_min b c) = Math_min (Math_min a b) c.
Proof. qc_order. Qed.

Lemma Math_max_assoc a b c : Math_max a (Math_max b c) = Math_max (Math_max a b) c.
Proof. qc_order. Qed.

Lemma Math_min_l a b : a ≤ b → Math_min a b = a.
Proof. intros. qc_order. Qed.

Lemma Math_min_r a b : b ≤ a → Math_min a b = b.
Proof. intros. qc_order. Qed.

Lemma Math_max_l a b : b ≤ a → Math_max a b = a.
Proof. intros. qc_order. Qed.

Lemma Math_max_r a b : a ≤ b → Math_max a b = b.
Proof. intros. qc_order. Qed.

Ltac qc_le :=
  unfold Math_min, Math_max;
  repeat case_decide;
  repeat match goal with
         | H : ¬ (_ ≤ _) |- _ => apply Qcnot_le_lt, Qclt_le_weak in H
         end;
  eauto using Qcle_trans, Qcle_refl.

Lemma Math_min_le_l a b : Math_min a b ≤ a.
Proof. qc_le. Qed.
Lemma Math_min_le_r a b : Math_min a b ≤ b.
Proof. qc_le. Qed.
Lemma Math_max_ge_l a b : a ≤ Math_max a b.
Proof. qc_le. Qed.
Lemma Math_max_ge_r a b : b ≤ Math_max a b.
Proof. qc_le. Qed.

Lemma Math_min_cases a b : Math_min a b = a ∨ Math_min a b = b.
Proof. unfold Math_min. case_decide; auto. Qed.

Lemma Math_max_cases a b : Math_max a b = a ∨ Math_max a b = b.
Proof. unfold Math_max. case_decide; auto. Qed.

(** ** Bounds union *)

Lemma extend_comm A B : extend A B = extend B A.
Proof.
  destruct A as [|[a1 a2] [a3 a4]], B as [|[b1 b2] [b3 b4]]; simpl; try reflexivity.
  f_equal; f_equal; auto using Math_min_comm, Math_max_comm.
Qed.

Lemma extend_assoc A B C : extend A (extend B C) = extend (extend A B) C.
Proof.
  destruct A as [|[a1 a2] [a3 a4]], B as [|[b1 b2] [b3 b4]],
           C as [|[c1 c2] [c3 c4]]; simpl; try reflexivity.
  f_equal; f_equal; auto using Math_min_assoc, Math_max_assoc, eq_sym.
Qed.

Lemma extend_empty_l A : extend latLngBounds0 A = A.
Proof. by destruct A as [|[a1 a2] [a3 a4]]. Qed.

Lemma extend_empty_r A : extend A latLngBounds0 = A.
Proof. reflexivity. Qed.

(** C6. The bounds union of the component, [A.extend(B)], is commutative
    and associative, and the bounds object without corners is its identity
    on both sides. *)
Theorem bounds_union_monoid (A B C : LatLngBounds) :
  extend A B = extend B A ∧
  extend A (extend B C) = extend (extend A B) C ∧
  extend latLngBounds0 A = A ∧
  extend A latLngBounds0 = A.
Proof.
  split; [apply extend_comm|].
  split; [apply extend_assoc|].
  split; [apply extend_empty_l | apply extend_empty_r].
Qed.

(** ** What the continuation of [async.each] leaves alone *)

Lemma same_layers_refl ls : same_layers ls ls.
Proof. reflexivity. Qed.

Lemma same_layers_setOpacity v ls : same_layers ls (setOpacity v <$> ls).
Proof.
  unfold same_layers. rewrite <- list_fmap_compose.
  apply list_fmap_ext. by intros i [].
Qed.

Lemma same_layers_proj {A} (f : TileLayer → A) ls ls' :
  (∀ v l, f (setOpacity v l) = f l) →
  same_layers ls ls' → f <$> ls' = f <$> ls.
Proof.
  intros Hf Hs.
  assert (f <$> (setOpacity 1 <$> ls') = f <$> (setOpacity 1 <$> ls)) as H
    by (by rewrite Hs).
  rewrite <- !list_fmap_compose in H.
  etrans; [|etrans; [exact H|]]; apply list_fmap_ext; intros; simpl; by rewrite ?Hf.
Qed.

Lemma same_layers_last ls ls' :
  same_layers ls ls' → setOpacity 1 <$> last ls' = setOpacity 1 <$> last ls.
Proof. unfold same_layers. intros H. by rewrite <- !fmap_last, H. Qed.

Lemma callback_frame err w : cb_frame w (world_of (callback err w)).
Proof.
  unfold callback. destruct (from_option truthy false err).
  - split; simpl; try reflexivity. apply same_layers_setOpacity.
  - destruct (map (this w) ≫= fitBounds (mapBounds (this w))); by split.
Qed.

Lemma once_callback_frame err w : cb_frame w (world_of (once_callback err w)).
Proof.
  unfold once_callback. destruct (called (loader w)); [by split|].
  destruct (callback_frame err
    (with_loader (λ e, mkEach (each_length e) (completed e) true) w)); by split.
Qed.

Lemma iteratorCallback_frame err w : cb_frame w (world_of (iteratorCallback err w)).
Proof.
  unfold iteratorCallback. destruct (from_option truthy false err).
  - apply once_callback_frame.
  - case_decide; [|by split].
    destruct (once_callback_frame None
      (with_loader (λ e, mkEach (each_length e) (S (completed e)) (called e)) w)); by split.
Qed.

(** ** Normalised layer bounds *)

Lemma on_done_usable tile info w :
  usable info = true →
  on_done tile info w =
    iteratorCallback None
      (with_this (λ m,
         set_mapBounds (Some (extend (default latLngBounds0 (mapBounds m))
                                     (layer_bounds info))) m)
         (with_this (λ m, set_imageryLayers (imageryLayers m ++ [new_layer tile info]) m)
            (with_heap (write_name (meta tile) (info_name info)) w))).
Proof.
  unfold usable, on_done. simpl. by destruct (layer_bounds info).
Qed.

Lemma on_done_unusable tile info w :
  usable info = false → on_done tile info w = Throws "TypeError" w.
Proof.
  unfold usable, on_done. simpl. by destruct (layer_bounds info).
Qed.

Lemma usable_well_formed info : well_formed info → usable info = true.
Proof.
  unfold well_formed, usable, layer_bounds.
  destruct (info_bounds info) as [|a [|b [|c [|d [|e l]]]]]; by intros [=].
Qed.

Lemma usable_four info west south east north :
  info_bounds info = [west; south; east; north] → usable info = true.
Proof. unfold usable, layer_bounds. by intros ->. Qed.

Lemma layer_bounds_corners info west south east north :
  info_bounds info = [west; south; east; north] →
  layer_bounds info =
    Corners (mkLatLng (Math_min north south) (Math_min east west))
            (mkLatLng (Math_max north south) (Math_max east west)).
Proof. unfold layer_bounds. by intros ->. Qed.

Lemma on_done_last_layer tile info w :
  usable info = true →
  setOpacity 1 <$> last (imageryLayers (this (world_of (on_done tile info w))))
  = Some (new_layer tile info).
Proof.
  intros Hu. rewrite (on_done_usable _ _ _ Hu).
  match goal with |- context [iteratorCallback None ?w0] =>
    destruct (iteratorCallback_frame None w0) as [_ _ _ _ Hl _ _ _] end.
  rewrite (same_layers_last _ _ Hl). simpl. by rewrite last_snoc.
Qed.

(** C3 (as amended).  A document whose bounds array is
    [west, south, east, north] is turned into the corner pair
    [(south, west)], [(north, east)] and handed to Leaflet, whose bounds
    object orders the corners per axis; the layer pushed by the [done]
    handler carries exactly that object.  Whenever [south <= north] and
    [west <= east] its corners are southWest = (south, west) and
    northEast = (north, east). *)
Theorem layer_bounds_axis_swap tile info w west south east north :
  info_bounds info = [west; south; east; north] →
  options_bounds <$> last (imageryLayers (this (world_of (on_done tile info w))))
    = Some (layer_bounds info) ∧
  layer_bounds info =
    Corners (mkLatLng (Math_min north south) (Math_min east west))
            (mkLatLng (Math_max north south) (Math_max east west)) ∧
  (south ≤ north → west ≤ east →
   layer_bounds info = Corners (mkLatLng south west) (mkLatLng north east)).
Proof.
  intros Hb. split; [|split].
  - pose proof (on_done_last_layer tile info w (usable_four _ _ _ _ _ Hb)) as H.
    apply (f_equal (fmap options_bounds)) in H.
    by destruct (last _).
  - by apply layer_bounds_corners.
  - intros Hs Hw. rewrite (layer_bounds_corners _ _ _ _ _ Hb).
    by rewrite (Math_min_r _ _ Hs), (Math_min_r _ _ Hw),
               (Math_max_l _ _ Hs), (Math_max_l _ _ Hw).
Qed.

Lemma layer_bounds_axis_swap_witness :
  info_bounds docA = [Qd (-92) 10; Qd 386 10; Qd (-91) 10; Qd 387 10] ∧
  Qd 386 10 ≤ Qd 387 10 ∧ Qd (-92) 10 ≤ Qd (-91) 10 ∧
  layer_bounds docA =
    Corners (mkLatLng (Qd 386 10) (Qd (-92) 10)) (mkLatLng (Qd 387 10) (Qd (-91) 10)).
Proof.
  assert (Qd 386 10 ≤ Qd 387 10) as Hs by by vm_compute.
  assert (Qd (-92) 10 ≤ Qd (-91) 10) as Hw by by vm_compute.
  split; [reflexivity|]. split; [exact Hs|]. split; [exact Hw|].
  exact (proj2 (proj2 (layer_bounds_axis_swap (mkTile "A" 0) docA
    (initial tilesAB (Qc_of_Z 100) false heapAB) _ _ _ _ eq_refl)) Hs Hw).
Defined.

(** C3 as stated fails on [docX]: the layer's corners are not
    southWest = (south, west) = (-10, 170), northEast = (10, -170). *)
Lemma layer_bounds_axis_swap_counterexample :
  info_bounds docX = [Qc_of_Z 170; Qc_of_Z (-10); Qc_of_Z (-170); Qc_of_Z 10] ∧
  options_bounds <$> last (imageryLayers (this
      (loadAll [mkTile "X" 0] (Qc_of_Z 100) false {[ 0%nat := ∅ ]} [(0%nat, Done docX)])))
    = Some (Corners (mkLatLng (Qc_of_Z (-10)) (Qc_of_Z (-170)))
                    (mkLatLng (Qc_of_Z 10) (Qc_of_Z 170))) ∧
  Corners (mkLatLng (Qc_of_Z (-10)) (Qc_of_Z (-170))) (mkLatLng (Qc_of_Z 10) (Qc_of_Z 170))
    ≠ Corners (mkLatLng (Qc_of_Z (-10)) (Qc_of_Z 170)) (mkLatLng (Qc_of_Z 10) (Qc_of_Z (-170))).
Proof.
  split; [reflexivity|]. split; [by vm_compute|]. intros H. discriminate H.
Qed.

(** ** Requests in flight *)

Lemma respond_pending i r w tile :
  pending w i → props_tiles (this w) !! i = Some tile →
  respond i r w =
    match r with
    | Done info => on_done tile info (with_this (set_request i Settled) w)
    | Fail err => on_fail err (with_this (set_request i Settled) w)
    end.
Proof. intros (x & Hx & Hp) Ht. unfold respond. by rewrite Hx, Ht, Hp. Qed.

Lemma respond_not_pending i r w :
  ¬ pending w i → respond i r w = Returns w.
Proof.
  intros Hn. unfold respond.
  destruct (default [] (tileJsonRequests (this w)) !! i) as [x|] eqn:Hx; [|done].
  destruct (props_tiles (this w) !! i); [|done].
  destruct (xhr_state x) eqn:Hs; try done.
  destruct Hn. by exists x.
Qed.

Lemma set_request_requests i s m :
  default [] (tileJsonRequests (set_request i s m))
  = alter (set_xhr_state s) i (default [] (tileJsonRequests m)).
Proof. unfold set_request. simpl. by destruct (tileJsonRequests m). Qed.

Lemma pending_set_request_ne i j s w :
  i ≠ j → pending w j → pending (with_this (set_request i s) w) j.
Proof.
  intros Hne (x & Hx & Hp). exists x. split; [|done].
  cbn [this with_this]. rewrite set_request_requests. by rewrite list_lookup_alter_ne.
Qed.

Lemma pending_set_request_eq i w : ¬ pending (with_this (set_request i Settled) w) i.
Proof.
  intros (x & Hx & Hp). cbn [this with_this] in Hx. rewrite set_request_requests in Hx.
  rewrite list_lookup_alter_eq in Hx.
  destruct (default [] (tileJsonRequests (this w)) !! i); simplify_eq/=.
Qed.

Lemma pending_frame w w' i :
  tileJsonRequests (this w') = tileJsonRequests (this w) → pending w i → pending w' i.
Proof. unfold pending. by intros ->. Qed.

(** The world after one answer, seen through the fields the answer may
    touch. *)
Lemma respond_done_frame i info w tile :
  pending w i → props_tiles (this w) !! i = Some tile →
  usable info = true →
  let w' := world_of (respond i (Done info) w) in
  props_tiles (this w') = props_tiles (this w) ∧
  props_opacity (this w') = props_opacity (this w) ∧
  mapBounds (this w') =
    Some (extend (default latLngBounds0 (mapBounds (this w))) (layer_bounds info)) ∧
  same_layers (imageryLayers (this w) ++ [new_layer tile info]) (imageryLayers (this w')) ∧
  heap w' = write_name (meta tile) (info_name info) (heap w) ∧
  window w' = window w ∧
  each_length (loader w') = each_length (loader w) ∧
  (∀ j, j ≠ i → pending w j → pending w' j) ∧ ¬ pending w' i.
Proof.
  intros Hp Ht Hu. simpl. rewrite (respond_pending _ _ _ _ Hp Ht).
  rewrite (on_done_usable _ _ _ Hu).
  match goal with |- context [iteratorCallback None ?w0] =>
    destruct (iteratorCallback_frame None w0) as [H1 H2 H3 H4 H5 H6 H7 H8] end.
  rewrite H1, H2, H3, H7, H8, H6. repeat split; try done.
  - intros j Hj Hpj. eapply pending_frame; [exact H4|].
    by apply (pending_set_request_ne i j Settled w).
  - intros Hpi. eapply (pending_set_request_eq i w).
    eapply pending_frame; [|exact Hpi]. by rewrite H4.
Qed.

Lemma respond_fail_frame i err w tile :
  pending w i → props_tiles (this w) !! i = Some tile →
  let w' := world_of (respond i (Fail err) w) in
  props_tiles (this w') = props_tiles (this w) ∧
  props_opacity (this w') = props_opacity (this w) ∧
  mapBounds (this w') = mapBounds (this w) ∧
  same_layers (imageryLayers (this w)) (imageryLayers (this w')) ∧
  heap w' = heap w ∧
  window w' = window w ∧
  each_length (loader w') = each_length (loader w) ∧
  (∀ j, j ≠ i → pending w j → pending w' j) ∧ ¬ pending w' i.
Proof.
  intros Hp Ht. simpl. rewrite (respond_pending _ _ _ _ Hp Ht). unfold on_fail.
  match goal with |- context [iteratorCallback ?e ?w0] =>
    destruct (iteratorCallback_frame e w0) as [H1 H2 H3 H4 H5 H6 H7 H8] end.
  rewrite H1, H2, H3, H7, H8, H6. repeat split; try done.
  - intros j Hj Hpj. eapply pending_frame; [exact H4|].
    by apply (pending_set_request_ne i j Settled w).
  - intros Hpi. eapply (pending_set_request_eq i w).
    eapply pending_frame; [|exact Hpi]. by rewrite H4.
Qed.

Lemma respond_done_unusable i info w tile :
  pending w i → props_tiles (this w) !! i = Some tile →
  usable info = false →
  respond i (Done info) w = Throws "TypeError" (with_this (set_request i Settled) w).
Proof.
  intros Hp Ht Hu. rewrite (respond_pending _ _ _ _ Hp Ht).
  by apply on_done_unusable.
Qed.

Lemma respond_done_unusable_pending i info w tile :
  pending w i → props_tiles (this w) !! i = Some tile →
  usable info = false →
  (∀ j, j ≠ i → pending w j → pending (world_of (respond i (Done info) w)) j) ∧
  ¬ pending (world_of (respond i (Done info) w)) i.
Proof.
  intros Hp Ht Hu. rewrite (respond_done_unusable _ _ _ _ Hp Ht Hu). simpl. split.
  - intros j Hj. by apply pending_set_request_ne.
  - apply pending_set_request_eq.
Qed.

(** ** Mounting *)

Lemma mount_frame h tiles opacity bg hp :
  let w := world_of (componentDidMount h (initial tiles opacity bg hp)) in
  props_tiles (this w) = tiles ∧
  props_opacity (this w) = opacity ∧
  mapBounds (this w) = None ∧
  imageryLayers (this w) = [] ∧
  tileJsonRequests (this w) = Some ((λ tile, mkXHR (url tile) Pending) <$> tiles) ∧
  heap w = hp ∧
  each_length (loader w) = length tiles.
Proof. destruct tiles; simpl; repeat split; done. Qed.

Lemma mount_pending h tiles opacity bg hp i :
  (i < length tiles)%nat →
  pending (world_of (componentDidMount h (initial tiles opacity bg hp))) i.
Proof.
  intros Hi. destruct (mount_frame h tiles opacity bg hp) as (_&_&_&_&Hr&_).
  unfold pending. rewrite Hr. simpl.
  destruct (lookup_lt_is_Some_2 tiles i Hi) as [t Ht].
  exists (mkXHR (url t) Pending). by rewrite list_lookup_fmap, Ht.
Qed.

(** ** Aggregate bounds *)

Lemma foldl_extend_perm bs bs' :
  bs ≡ₚ bs' → ∀ b, foldl extend b bs = foldl extend b bs'.
Proof.
  induction 1 as [|x l l' _ IH|x y l|l l' l'' _ IH1 _ IH2]; intros b; simpl.
  - done.
  - apply IH.
  - f_equal. by rewrite <- !extend_assoc, (extend_comm y x).
  - by rewrite IH1.
Qed.

Lemma union_all_snoc bs b : union_all (bs ++ [b]) = extend (union_all bs) b.
Proof. unfold union_all. by rewrite foldl_app. Qed.

Lemma run_cons w e es : run w (e :: es) = run (world_of (step w e)) es.
Proof. reflexivity. Qed.

Lemma answer_all_events doc order :
  (λ a : nat * response, Respond a.1 a.2) <$> answer_all doc order
  = (λ i, Respond i (Done (doc i))) <$> order.
Proof. unfold answer_all. by rewrite <- list_fmap_compose. Qed.

Lemma run_all_done (doc : nat → TileJson) order : ∀ w,
  NoDup order →
  (∀ i, i ∈ order → usable (doc i) = true) →
  (∀ i, i ∈ order → pending w i ∧ is_Some (props_tiles (this w) !! i)) →
  default latLngBounds0 (mapBounds (this (run w ((λ i, Respond i (Done (doc i))) <$> order)))) =
    foldl extend (default latLngBounds0 (mapBounds (this w)))
          ((λ i, layer_bounds (doc i)) <$> order) ∧
  (is_Some (mapBounds (this w)) ∨ order ≠ [] →
   is_Some (mapBounds (this (run w ((λ i, Respond i (Done (doc i))) <$> order))))) ∧
  options_bounds <$> imageryLayers (this (run w ((λ i, Respond i (Done (doc i))) <$> order))) =
    (options_bounds <$> imageryLayers (this w)) ++ ((λ i, layer_bounds (doc i)) <$> order).
Proof.
  induction order as [|i order IH]; intros w Hnd Hu Hp.
  - simpl. rewrite app_nil_r. repeat split. by intros [?|?].
  - apply NoDup_cons in Hnd as [Hi Hnd].
    destruct (Hp i) as [Hpi [tile Ht]]; [by left|].
    destruct (respond_done_frame i (doc i) w tile Hpi Ht)
      as (Ht' & _ & Hb & Hl & _ & _ & _ & Hpend & _); [apply Hu; by left|].
    rewrite !fmap_cons, run_cons. cbn [step].
    set (w1 := world_of (respond i (Done (doc i)) w)) in *.
    destruct (IH w1 Hnd) as (IH1 & IH2 & IH3).
    { intros j Hj. apply Hu. by right. }
    { intros j Hj. destruct (Hp j) as [Hpj Htj]; [by right|].
      split; [|by rewrite Ht'].
      apply Hpend; [|done]. intros ->. done. }
    repeat split.
    + etrans; [exact IH1|]. by rewrite Hb.
    + intros _. apply IH2. left. by rewrite Hb.
    + etrans; [exact IH3|].
      rewrite (same_layers_proj options_bounds _ _ (λ _ _, eq_refl) Hl).
      by rewrite fmap_app, <- app_assoc.
Qed.

Lemma loadAll_all_done tiles opacity bg hp doc order :
  order ≡ₚ seq 0 (length tiles) →
  (∀ i, (i < length tiles)%nat → well_formed (doc i)) →
  let w := loadAll tiles opacity bg hp (answer_all doc order) in
  default latLngBounds0 (mapBounds (this w)) =
    union_all ((λ i, layer_bounds (doc i)) <$> seq 0 (length tiles)) ∧
  (tiles ≠ [] → is_Some (mapBounds (this w))) ∧
  options_bounds <$> imageryLayers (this w) = (λ i, layer_bounds (doc i)) <$> order.
Proof.
  intros Hperm Hwf. unfold loadAll. rewrite answer_all_events.
  destruct (mount_frame 0 tiles opacity bg hp) as (Ht & _ & Hb & Hl & _).
  destruct (run_all_done doc order
    (world_of (componentDidMount 0 (initial tiles opacity bg hp)))) as (H1 & H2 & H3).
  { rewrite Hperm. apply NoDup_seq. }
  { intros i Hi. rewrite Hperm in Hi. apply elem_of_seq in Hi as [_ Hi].
    by apply usable_well_formed, Hwf. }
  { intros i Hi. rewrite Hperm in Hi. apply elem_of_seq in Hi as [_ Hi].
    split; [by apply mount_pending|]. rewrite Ht. by apply lookup_lt_is_Some_2. }
  repeat split.
  - etrans; [exact H1|]. rewrite Hb. simpl. unfold union_all.
    apply foldl_extend_perm. by rewrite Hperm.
  - intros Hne. apply H2. right. intros ->.
    apply Permutation_nil_l in Hperm. symmetry in Hperm.
    destruct tiles; [done|discriminate].
  - by rewrite H3, Hl.
Qed.

Lemma scenario_AB order :
  order ≡ₚ [0; 1]%nat →
  mapBounds (this (loadAll tilesAB (Qc_of_Z 100) false heapAB (answer_all (λ i, if i is 0%nat then docA else docB) order)))
  = Some (Corners (mkLatLng (Qd 385 10) (Qd (-93) 10)) (mkLatLng (Qd 387 10) (Qd (-91) 10))).
Proof.
  intros H.
  assert (order = [0; 1]%nat ∨ order = [1; 0]%nat) as [-> | ->]; [|by vm_compute..].
  symmetry in H. by apply Permutation_length_2_inv in H.
Qed.

(** The union is the smallest box around the points of both operands. *)
Lemma bounding_extend P Q a b :
  bounding P a → bounding Q b → bounding (P ++ Q) (extend a b).
Proof.
  destruct b as [|sw2 ne2]; simpl.
  { intros Ha ->. by rewrite app_nil_r. }
  destruct a as [|sw ne]; simpl.
  { intros -> Hb. exact Hb. }
  intros (Hin & (p1 & Hp1 & E1) & (p2 & Hp2 & E2) & (p3 & Hp3 & E3) & (p4 & Hp4 & E4))
         (Hin' & (q1 & Hq1 & F1) & (q2 & Hq2 & F2) & (q3 & Hq3 & F3) & (q4 & Hq4 & F4)).
  split; [|repeat split].
  - intros p Hp. apply elem_of_app in Hp as [Hp|Hp].
    + destruct (Hin p Hp) as (H1 & H2 & H3 & H4). repeat split;
        eauto using Qcle_trans, Math_min_le_r, Math_max_ge_r.
    + destruct (Hin' p Hp) as (H1 & H2 & H3 & H4). repeat split;
        eauto using Qcle_trans, Math_min_le_l, Math_max_ge_l.
  - destruct (Math_min_cases (lat sw2) (lat sw)) as [->| ->];
      [exists q1|exists p1]; split; auto; apply elem_of_app; auto.
  - destruct (Math_min_cases (lng sw2) (lng sw)) as [->| ->];
      [exists q2|exists p2]; split; auto; apply elem_of_app; auto.
  - destruct (Math_max_cases (lat ne2) (lat ne)) as [->| ->];
      [exists q3|exists p3]; split; auto; apply elem_of_app; auto.
  - destruct (Math_max_cases (lng ne2) (lng ne)) as [->| ->];
      [exists q4|exists p4]; split; auto; apply elem_of_app; auto.
Qed.

Lemma bounding_layer_bounds info :
  well_formed info → bounding (document_corners info) (layer_bounds info).
Proof.
  unfold well_formed, document_corners. intros Hwf.
  destruct (info_bounds info) as [|w [|s [|e [|n [|x l]]]]] eqn:Hb; try discriminate Hwf.
  rewrite (layer_bounds_corners _ _ _ _ _ Hb). simpl. split; [|repeat split].
  - intros p Hp. apply elem_of_cons in Hp as [->|Hp];
      [|apply list_elem_of_singleton in Hp as ->]; simpl; repeat split;
      auto using Math_min_le_l, Math_min_le_r, Math_max_ge_l, Math_max_ge_r.
  - destruct (Math_min_cases n s) as [->| ->];
      [exists (mkLatLng n e)|exists (mkLatLng s w)]; split; auto;
      repeat constructor.
  - destruct (Math_min_cases e w) as [->| ->];
      [exists (mkLatLng n e)|exists (mkLatLng s w)]; split; auto;
      repeat constructor.
  - destruct (Math_max_cases n s) as [->| ->];
      [exists (mkLatLng n e)|exists (mkLatLng s w)]; split; auto;
      repeat constructor.
  - destruct (Math_max_cases e w) as [->| ->];
      [exists (mkLatLng n e)|exists (mkLatLng s w)]; split; auto;
      repeat constructor.
Qed.

Lemma bounding_union_all (doc : nat → TileJson) (indices : list nat) :
  (∀ i, i ∈ indices → well_formed (doc i)) →
  bounding (indices ≫= λ i, document_corners (doc i))
           (union_all ((λ i, layer_bounds (doc i)) <$> indices)).
Proof.
  induction indices as [|i indices IH] using rev_ind; intros Hwf; [done|].
  rewrite fmap_app, bind_app. simpl. rewrite union_all_snoc, app_nil_r.
  apply bounding_extend.
  - apply IH. intros j Hj. apply Hwf, elem_of_app. by left.
  - apply bounding_layer_bounds, Hwf, elem_of_app. right. by left.
Qed.

(** C4.  When every fetch succeeds with a document whose bounds array has
    its four numbers, whatever the order in which the answers arrive:
    [mapBounds] (with [null] read as the bounds object
    without corners, as line 199 reads it) is the union of the bounds of
    the layers in [imageryLayers], which are the bounds computed from each
    document alone; for a non-empty tile list it is a bounds object; two
    completion orders give the same [mapBounds]; and the documents with
    bounds [-9.2,38.6,-9.1,38.7] and [-9.3,38.5,-9.2,38.6] give
    southWest = (38.5,-9.3), northEast = (38.7,-9.1).  The union is the
    geometric one: the bounds of each layer are the smallest box around the
    two corners (south, west) and (north, east) of its document, and
    [mapBounds] is the smallest box around the corners of all documents:
    it encloses every one of them, and each of its four sides passes
    through one of them. *)
Theorem aggregate_bounds_union tiles opacity bg hp (doc : nat → TileJson)
    (order order' : list nat) :
  (∀ i, (i < length tiles)%nat → well_formed (doc i)) →
  order ≡ₚ seq 0 (length tiles) →
  order' ≡ₚ seq 0 (length tiles) →
  let w := loadAll tiles opacity bg hp (answer_all doc order) in
  let w' := loadAll tiles opacity bg hp (answer_all doc order') in
  options_bounds <$> imageryLayers (this w) = (λ i, layer_bounds (doc i)) <$> order ∧
  default latLngBounds0 (mapBounds (this w)) =
    union_all (options_bounds <$> imageryLayers (this w)) ∧
  default latLngBounds0 (mapBounds (this w)) =
    union_all ((λ i, layer_bounds (doc i)) <$> seq 0 (length tiles)) ∧
  (tiles ≠ [] → is_Some (mapBounds (this w))) ∧
  mapBounds (this w) = mapBounds (this w') ∧
  (∀ o, o ≡ₚ [0; 1]%nat →
     mapBounds (this (loadAll tilesAB (Qc_of_Z 100) false heapAB
                        (answer_all (λ i, if i is 0%nat then docA else docB) o)))
     = Some (Corners (mkLatLng (Qd 385 10) (Qd (-93) 10))
                     (mkLatLng (Qd 387 10) (Qd (-91) 10)))) ∧
  (∀ i, (i < length tiles)%nat →
     bounding (document_corners (doc i)) (layer_bounds (doc i))) ∧
  bounding (seq 0 (length tiles) ≫= λ i, document_corners (doc i))
           (default latLngBounds0 (mapBounds (this w))).
Proof.
  intros Hwf Ho Ho' w w'.
  destruct (loadAll_all_done tiles opacity bg hp doc order Ho Hwf) as (H1 & H2 & H3).
  destruct (loadAll_all_done tiles opacity bg hp doc order' Ho' Hwf) as (H1' & H2' & H3').
  fold w in H1, H2, H3. fold w' in H1', H2', H3'.
  split; [done|]. split.
  { rewrite H1, H3. unfold union_all. apply foldl_extend_perm. by rewrite Ho. }
  split; [done|]. split; [done|]. split; [|split; [apply scenario_AB|]].
  { destruct tiles as [|t tiles].
    - apply Permutation_nil_r in Ho, Ho'. by subst w w' order order'.
    - destruct H2 as [b Hb]; [done|]. destruct H2' as [b' Hb']; [done|].
      rewrite Hb, Hb' in *. simpl in H1, H1'. congruence. }
  split.
  - intros i Hi. by apply bounding_layer_bounds, Hwf.
  - rewrite H1. apply bounding_union_all. intros i Hi.
    apply elem_of_seq in Hi as [_ Hi]. by apply Hwf.
Qed.

Lemma aggregate_bounds_union_witness :
  (∀ i, (i < length tilesAB)%nat → well_formed (if i is 0%nat then docA else docB)) ∧
  [1; 0]%nat ≡ₚ seq 0 (length tilesAB) ∧
  [0; 1]%nat ≡ₚ seq 0 (length tilesAB) ∧
  mapBounds (this (loadAll tilesAB (Qc_of_Z 100) false heapAB
    (answer_all (λ i, if i is 0%nat then docA else docB) [1; 0]%nat)))
  = mapBounds (this (loadAll tilesAB (Qc_of_Z 100) false heapAB
    (answer_all (λ i, if i is 0%nat then docA else docB) [0; 1]%nat))).
Proof.
  assert ([1; 0]%nat ≡ₚ seq 0 (length tilesAB)) as H1 by apply perm_swap.
  assert ([0; 1]%nat ≡ₚ seq 0 (length tilesAB)) as H2 by reflexivity.
  assert (∀ i, (i < length tilesAB)%nat →
            well_formed (if i is 0%nat then docA else docB)) as H0
    by (by intros [|i] _).
  split; [exact H0|]. split; [exact H1|]. split; [exact H2|].
  exact (proj1 (proj2 (proj2 (proj2 (proj2
    (aggregate_bounds_union tilesAB (Qc_of_Z 100) false heapAB
       (λ i, if i is 0%nat then docA else docB) [1; 0]%nat [0; 1]%nat H0 H1 H2)))))).
Defined.

(** ** The three ways the per-item continuation can go *)

Lemma iteratorCallback_quiet err w :
  from_option truthy false err = false →
  S (completed (loader w)) ≠ each_length (loader w) →
  iteratorCallback err w =
    Returns (with_loader (λ e, mkEach (each_length e) (S (completed e)) (called e)) w).
Proof. intros He Hn. unfold iteratorCallback. rewrite He. simpl. by case_decide. Qed.

Lemma iteratorCallback_first_error err w :
  truthy err = true → called (loader w) = false →
  iteratorCallback (Some err) w =
    Returns (setState_error (message err)
               (with_loader (λ e, mkEach (each_length e) (completed e) true) w)).
Proof.
  intros He Hc. unfold iteratorCallback, once_callback, callback. simpl.
  by rewrite He, Hc.
Qed.

Lemma iteratorCallback_called err w :
  called (loader w) = true →
  this (world_of (iteratorCallback err w)) = this w ∧
  called (loader (world_of (iteratorCallback err w))) = true.
Proof.
  intros Hc. unfold iteratorCallback, once_callback.
  destruct (from_option truthy false err); [by rewrite Hc|].
  case_decide; simpl; by rewrite Hc.
Qed.

Lemma respond_done_dropped i info w tile :
  pending w i → props_tiles (this w) !! i = Some tile →
  usable info = false →
  let w' := world_of (respond i (Done info) w) in
  state_error (this w') = state_error (this w) ∧
  map (this w') = map (this w) ∧
  imageryLayers (this w') = imageryLayers (this w) ∧
  loader w' = loader w.
Proof.
  intros Hp Ht Hu. simpl. by rewrite (respond_done_unusable _ _ _ _ Hp Ht Hu).
Qed.

Lemma respond_done_quiet i info w tile :
  pending w i → props_tiles (this w) !! i = Some tile →
  usable info = true →
  called (loader w) = false →
  S (completed (loader w)) ≠ each_length (loader w) →
  let w' := world_of (respond i (Done info) w) in
  state_error (this w') = state_error (this w) ∧
  map (this w') = map (this w) ∧
  imageryLayers (this w') = imageryLayers (this w) ++ [new_layer tile info] ∧
  called (loader w') = false ∧
  completed (loader w') = S (completed (loader w)).
Proof.
  intros Hp Ht Hu Hc Hn. simpl. rewrite (respond_pending _ _ _ _ Hp Ht).
  rewrite (on_done_usable _ _ _ Hu). by rewrite iteratorCallback_quiet.
Qed.

Lemma respond_fail_quiet i err w tile :
  pending w i → props_tiles (this w) !! i = Some tile →
  truthy err = false →
  called (loader w) = false →
  S (completed (loader w)) ≠ each_length (loader w) →
  let w' := world_of (respond i (Fail err) w) in
  state_error (this w') = state_error (this w) ∧
  map (this w') = map (this w) ∧
  imageryLayers (this w') = imageryLayers (this w) ∧
  called (loader w') = false ∧
  completed (loader w') = S (completed (loader w)).
Proof.
  intros Hp Ht He Hc Hn. simpl. rewrite (respond_pending _ _ _ _ Hp Ht).
  unfold on_fail. by rewrite iteratorCallback_quiet.
Qed.

Lemma respond_fail_first i err w tile :
  pending w i → props_tiles (this w) !! i = Some tile →
  truthy err = true →
  called (loader w) = false →
  let w' := world_of (respond i (Fail err) w) in
  state_error (this w') = message err ∧
  map (this w') = map (this w) ∧
  imageryLayers (this w') =
    setOpacity (props_opacity (this w) / Qc_of_Z 100) <$> imageryLayers (this w) ∧
  called (loader w') = true.
Proof.
  intros Hp Ht He Hc. simpl. rewrite (respond_pending _ _ _ _ Hp Ht).
  unfold on_fail. by rewrite iteratorCallback_first_error.
Qed.

Lemma respond_called i r w tile :
  pending w i → props_tiles (this w) !! i = Some tile →
  called (loader w) = true →
  let w' := world_of (respond i r w) in
  state_error (this w') = state_error (this w) ∧
  map (this w') = map (this w) ∧
  imageryLayers (this w') = imageryLayers (this w) ++ layers_of tile r ∧
  called (loader w') = true.
Proof.
  intros Hp Ht Hc. simpl.
  destruct r as [info|err]; [destruct (usable info) eqn:Hu|].
  - rewrite (respond_pending _ _ _ _ Hp Ht), (on_done_usable _ _ _ Hu).
    match goal with |- context [iteratorCallback None ?w0] =>
      destruct (iteratorCallback_called None w0 Hc) as [-> ->] end.
    simpl. by rewrite Hu.
  - destruct (respond_done_dropped i info w tile Hp Ht Hu) as (-> & -> & -> & ->).
    simpl. by rewrite Hu, app_nil_r.
  - rewrite (respond_pending _ _ _ _ Hp Ht). unfold on_fail.
    match goal with |- context [iteratorCallback ?e ?w0] =>
      destruct (iteratorCallback_called e w0 Hc) as [-> ->] end.
    simpl. by rewrite app_nil_r.
Qed.

Lemma respond_keeps i r w tile :
  pending w i → props_tiles (this w) !! i = Some tile →
  props_tiles (this (world_of (respond i r w))) = props_tiles (this w) ∧
  props_opacity (this (world_of (respond i r w))) = props_opacity (this w) ∧
  each_length (loader (world_of (respond i r w))) = each_length (loader w) ∧
  (∀ j, j ≠ i → pending w j → pending (world_of (respond i r w)) j).
Proof.
  intros Hp Ht. destruct r as [info|err]; [destruct (usable info) eqn:Hu|].
  - destruct (respond_done_frame i info w tile Hp Ht Hu) as (?&?&_&_&_&_&?&?&_). done.
  - destruct (respond_done_unusable_pending i info w tile Hp Ht Hu) as [? _].
    by rewrite (respond_done_unusable _ _ _ _ Hp Ht Hu) in *.
  - destruct (respond_fail_frame i err w tile Hp Ht) as (?&?&_&_&_&_&?&?&_). done.
Qed.

(** ** Fail-fast *)

Lemma in_flight_cons w i r answers tile :
  in_flight w ((i, r) :: answers) →
  props_tiles (this w) !! i = Some tile →
  in_flight (world_of (respond i r w)) answers.
Proof.
  intros [Hnd Hp] Ht. rewrite fmap_cons in Hnd. apply NoDup_cons in Hnd as [Hi Hnd].
  destruct (Hp (i, r)) as [Hpi _]; [by left|].
  destruct (respond_keeps i r w tile Hpi Ht) as (Ht' & _ & _ & Hk).
  split; [done|]. intros a Ha. destruct (Hp a) as [Hpa Hta]; [by right|].
  split; [|by rewrite Ht'].
  apply Hk; [|done]. intros Heq. apply Hi. simpl. rewrite <- Heq.
  by apply list_elem_of_fmap_2.
Qed.

Lemma in_flight_head w i r answers :
  in_flight w ((i, r) :: answers) →
  pending w i ∧ ∃ tile, props_tiles (this w) !! i = Some tile.
Proof. intros [_ Hp]. destruct (Hp (i, r)) as [? [t ?]]; [by left|]. eauto. Qed.

Lemma loaded_layers_cons tiles i r answers tile :
  tiles !! i = Some tile →
  loaded_layers tiles ((i, r) :: answers) =
    layers_of tile r ++ loaded_layers tiles answers.
Proof. intros Ht. unfold loaded_layers. rewrite bind_cons. simpl. by rewrite Ht. Qed.

(** Once the final callback is consumed, late answers still push their
    layers, and nothing else of the instance changes. *)
Lemma run_after_callback answers : ∀ w,
  called (loader w) = true →
  in_flight w answers →
  state_error (this (run w ((λ a, Respond a.1 a.2) <$> answers))) = state_error (this w) ∧
  map (this (run w ((λ a, Respond a.1 a.2) <$> answers))) = map (this w) ∧
  imageryLayers (this (run w ((λ a, Respond a.1 a.2) <$> answers))) =
    imageryLayers (this w) ++ loaded_layers (props_tiles (this w)) answers.
Proof.
  induction answers as [|[i r] answers IH]; intros w Hc Hf.
  - simpl. by rewrite app_nil_r.
  - destruct (in_flight_head _ _ _ _ Hf) as [Hp [tile Ht]].
    rewrite fmap_cons, run_cons. cbn [step fst snd].
    destruct (respond_called i r w tile Hp Ht Hc) as (He & Hm & Hl & Hc').
    destruct (respond_keeps i r w tile Hp Ht) as (Ht' & _).
    destruct (IH _ Hc' (in_flight_cons _ _ _ _ _ Hf Ht)) as (IH1 & IH2 & IH3).
    rewrite IH1, IH2, IH3, He, Hm, Hl, Ht', (loaded_layers_cons _ _ _ _ _ Ht).
    by rewrite app_assoc.
Qed.

Lemma first_error_nonempty answers err :
  first_error answers = Some err → (0 < length answers)%nat.
Proof. destruct answers; [done|simpl; lia]. Qed.

Lemma run_until_error err answers : ∀ w,
  called (loader w) = false →
  (completed (loader w) + length answers ≤ each_length (loader w))%nat →
  in_flight w answers →
  first_error answers = Some err →
  state_error (this (run w ((λ a, Respond a.1 a.2) <$> answers))) = message err ∧
  map (this (run w ((λ a, Respond a.1 a.2) <$> answers))) = map (this w) ∧
  same_layers (imageryLayers (this w) ++ loaded_layers (props_tiles (this w)) answers)
              (imageryLayers (this (run w ((λ a, Respond a.1 a.2) <$> answers)))).
Proof.
  induction answers as [|[i r] answers IH]; intros w Hc Hlen Hf Herr; [done|].
  destruct (in_flight_head _ _ _ _ Hf) as [Hp [tile Ht]].
  pose proof (in_flight_cons _ _ _ _ _ Hf Ht) as Hf'.
  destruct (respond_keeps i r w tile Hp Ht) as (Ht' & Ho' & Hl' & _).
  rewrite fmap_cons, run_cons. cbn [step fst snd].
  rewrite (loaded_layers_cons _ _ _ _ _ Ht).
  simpl in Hlen, Herr.
  destruct r as [info|e]; [destruct (usable info) eqn:Hu|destruct (truthy e) eqn:He].
  - pose proof (first_error_nonempty _ _ Herr).
    destruct (respond_done_quiet i info w tile Hp Ht Hu Hc)
      as (H1 & H2 & H3 & H4 & H5); [lia|].
    destruct (IH _ H4) as (IH1 & IH2 & IH3); [lia|done|done|].
    rewrite IH1, IH2, H2. repeat split. simpl. rewrite Hu.
    by rewrite Ht', H3, <- app_assoc in IH3.
  - destruct (respond_done_dropped i info w tile Hp Ht Hu) as (H1 & H2 & H3 & H4).
    destruct (IH (world_of (respond i (Done info) w))) as (IH1 & IH2 & IH3);
      [by rewrite H4|rewrite H4; lia|done|done|].
    rewrite IH1, IH2, H2. repeat split. simpl. rewrite Hu.
    by rewrite Ht', H3 in IH3.
  - injection Herr as ->.
    destruct (respond_fail_first i err w tile Hp Ht He Hc) as (H1 & H2 & H3 & H4).
    destruct (run_after_callback answers _ H4 Hf') as (R1 & R2 & R3).
    rewrite R1, R2, R3, H1, H2, H3, Ht'. repeat split.
    unfold same_layers. rewrite !fmap_app. f_equal.
    apply same_layers_setOpacity.
  - pose proof (first_error_nonempty _ _ Herr).
    destruct (respond_fail_quiet i e w tile Hp Ht He Hc) as (H1 & H2 & H3 & H4 & H5); [lia|].
    destruct (IH _ H4) as (IH1 & IH2 & IH3); [lia|done|done|].
    rewrite IH1, IH2, H2. repeat split.
    by rewrite Ht', H3 in IH3.
Qed.

Lemma mount_loader h tile tiles opacity bg hp :
  let w := world_of (componentDidMount h (initial (tile :: tiles) opacity bg hp)) in
  called (loader w) = false ∧
  completed (loader w) = 0%nat ∧
  state_error (this w) = Some EmptyString ∧
  map (this w) = Some (mkLMap h false None None false).
Proof. done. Qed.

Lemma loaded_layers_new tiles answers :
  Forall (λ l, ∃ tile info, l = new_layer tile info) (loaded_layers tiles answers).
Proof.
  apply Forall_forall. intros l Hl.
  apply list_elem_of_bind in Hl as ([i r] & Hf & _). simpl in Hf.
  destruct (tiles !! i) as [tile|]; simpl in Hf; [|by apply elem_of_nil in Hf].
  destruct r as [info|e]; simpl in Hf; [|by apply elem_of_nil in Hf].
  destruct (usable info); [|by apply elem_of_nil in Hf].
  apply list_elem_of_singleton in Hf as ->. eauto.
Qed.

Lemma loaded_layers_fresh tiles answers :
  setOpacity 1 <$> loaded_layers tiles answers = loaded_layers tiles answers.
Proof.
  rewrite <- (list_fmap_id (loaded_layers tiles answers)) at 2.
  apply Forall_fmap_ext. eapply Forall_impl; [apply loaded_layers_new|].
  by intros l (tile & info & ->).
Qed.

Lemma loaded_layers_on_map tiles answers :
  Forall (λ l, _map l = true) (loaded_layers tiles answers).
Proof.
  eapply Forall_impl; [apply loaded_layers_new|]. by intros l (tile & info & ->).
Qed.

Lemma answers_in_flight h tiles opacity bg hp (answers : list (nat * response)) :
  NoDup answers.*1 →
  (∀ a, a ∈ answers → (a.1 < length tiles)%nat) →
  in_flight (world_of (componentDidMount h (initial tiles opacity bg hp))) answers ∧
  (length answers ≤ length tiles)%nat.
Proof.
  intros Hnd Hr. split; [split; [done|]|].
  - intros a Ha. split; [by apply mount_pending, Hr|].
    destruct (mount_frame h tiles opacity bg hp) as (-> & _).
    by apply lookup_lt_is_Some_2, Hr.
  - rewrite <- (length_fmap fst answers), <- (length_seq (length tiles) 0).
    apply submseteq_length, NoDup_submseteq; [done|].
    intros i Hi. apply list_elem_of_fmap in Hi as (a & -> & Ha).
    apply elem_of_seq. split; [lia|]. by apply Hr.
Qed.

(** C1 (as amended).  Each request settles at most once.  When some fetch
    fails with a truthy error, the final callback runs for the first such
    error and for nothing else: [state.error] becomes that error's
    [message], the viewport is not fitted, no layers control and no click
    listener are installed.  The layers of the fetches that succeeded
    with a usable document, before or after the failure, are all in
    [imageryLayers] in order of arrival and are all on the map. *)
Theorem load_fail_fast tiles opacity bg hp (answers : list (nat * response)) err :
  NoDup answers.*1 →
  (∀ a, a ∈ answers → (a.1 < length tiles)%nat) →
  first_error answers = Some err →
  let w := loadAll tiles opacity bg hp answers in
  state_error (this w) = message err ∧
  map (this w) = Some (mkLMap 0 false None None false) ∧
  setOpacity 1 <$> imageryLayers (this w) = loaded_layers tiles answers ∧
  Forall (λ l, _map l = true) (imageryLayers (this w)).
Proof.
  intros Hnd Hr Herr w. subst w. unfold loadAll.
  destruct (answers_in_flight 0 tiles opacity bg hp answers Hnd Hr) as [Hf Hlen].
  destruct tiles as [|tile tiles].
  { pose proof (first_error_nonempty _ _ Herr). simpl in Hlen. lia. }
  destruct (mount_loader 0 tile tiles opacity bg hp) as (Hc & Hk & He & Hm).
  destruct (mount_frame 0 (tile :: tiles) opacity bg hp) as (Ht & _ & _ & Hl & _ & _ & Hn).
  destruct (run_until_error err answers _ Hc) as (R1 & R2 & R3); [|done|done|].
  { rewrite Hk, Hn. simpl. simpl in Hlen. lia. }
  rewrite Hl, Ht in R3. unfold same_layers in R3.
  rewrite app_nil_l, loaded_layers_fresh in R3.
  rewrite R1, R2, Hm. repeat split; [done|].
  set (layers := imageryLayers (this (run _ _))) in *.
  assert (_map <$> layers = _map <$> loaded_layers (tile :: tiles) answers) as Hmap.
  { rewrite <- R3, <- list_fmap_compose. apply list_fmap_ext. by intros ? []. }
  cut (Forall (λ b : bool, b = true) (_map <$> layers)).
  { intros H. by apply Forall_fmap in H. }
  rewrite Hmap. apply Forall_fmap, loaded_layers_on_map.
Qed.

Lemma load_fail_fast_witness :
  NoDup [(1%nat, Fail (ErrObject "parsererror")); (0%nat, Done docA)].*1 ∧
  first_error [(1%nat, Fail (ErrObject "parsererror")); (0%nat, Done docA)]
    = Some (ErrObject "parsererror") ∧
  state_error (this (loadAll tilesAB (Qc_of_Z 100) false heapAB
    [(1%nat, Fail (ErrObject "parsererror")); (0%nat, Done docA)])) = Some "parsererror".
Proof.
  assert (NoDup [(1%nat, Fail (ErrObject "parsererror")); (0%nat, Done docA)].*1) as Hnd
    by (simpl; apply (bool_decide_unpack _); by vm_compute).
  split; [exact Hnd|]. split; [reflexivity|].
  refine (proj1 (load_fail_fast tilesAB (Qc_of_Z 100) false heapAB _ _ Hnd _ eq_refl)).
  intros a Ha. apply (bool_decide_unpack _).
  revert a Ha. apply Forall_forall. repeat constructor.
Defined.

(** C1 as stated fails: tile A answers, then tile B fails with HTTP 500;
    the load has ended in the error branch, and the layer of A is in
    [imageryLayers] and on the map. *)
Lemma load_fail_fast_counterexample :
  let w := loadAll tilesAB (Qc_of_Z 100) false heapAB
             [(0%nat, Done docA); (1%nat, Fail (ErrText "Internal Server Error"))] in
  called (loader w) = true ∧
  (map (this w) ≫= autolayers) = None ∧
  layer_meta <$> imageryLayers (this w) = [0%nat] ∧
  _map <$> imageryLayers (this w) = [true].
Proof. by vm_compute. Qed.

(** ** Teardown *)

Lemma forEach_abort_throws x requests w :
  forEach_abort (x :: requests) w = Throws "TypeError" w.
Proof. reflexivity. Qed.

(** With at least one request issued, [componentWillUnmount] ends in a
    [TypeError] at the first [abort()]: the map is removed, no request
    changes state and the list of requests is not reset. *)
Lemma componentWillUnmount_throws w lm x requests :
  map (this w) = Some lm →
  tileJsonRequests (this w) = Some (x :: requests) →
  throws (componentWillUnmount w) = true ∧
  tileJsonRequests (this (world_of (componentWillUnmount w))) = Some (x :: requests).
Proof.
  intros Hm Hr. unfold componentWillUnmount, map_remove. rewrite Hm. simpl.
  by rewrite Hr.
Qed.

(** C2, evaluated on the failing input: two tiles are being fetched when
    the component unmounts.  [componentWillUnmount] throws, both requests
    stay pending, and the answer for tile A that arrives afterwards pushes
    a layer into [imageryLayers] and puts it on the removed map. *)
Theorem unmount_leaves_fetches_running :
  let w0 := world_of (componentDidMount 0 (initial tilesAB (Qc_of_Z 100) false heapAB)) in
  let o := componentWillUnmount w0 in
  let w2 := run (world_of o) [Respond 0 (Done docA)] in
  xhr_state <$> default [] (tileJsonRequests (this w0)) = [Pending; Pending] ∧
  throws o = true ∧
  xhr_state <$> default [] (tileJsonRequests (this (world_of o))) = [Pending; Pending] ∧
  imageryLayers (this (world_of o)) = [] ∧
  layer_meta <$> imageryLayers (this w2) = [0%nat] ∧
  _map <$> imageryLayers (this w2) = [true].
Proof. by vm_compute. Qed.

(** ** Opacity *)

Lemma setOpacity_setOpacity v u l : setOpacity v (setOpacity u l) = setOpacity v l.
Proof. reflexivity. Qed.

Lemma fmap_setOpacity_setOpacity v u (ls : list TileLayer) :
  setOpacity v <$> (setOpacity u <$> ls) = setOpacity v <$> ls.
Proof. rewrite <- list_fmap_compose. by apply list_fmap_ext. Qed.

(** C8 (as amended).  A new opacity value followed by [componentDidUpdate]
    sets the opacity of every element of [imageryLayers] to [v / 100] and
    changes nothing else of the layers; doing it twice gives the same world
    as doing it once.  This holds in every state of the load, also while
    fetches are pending and after a failure. *)
Theorem opacity_uniform_idempotent (w : World) (v : Qc) :
  let w1 := world_of (step w (NewOpacity v)) in
  world_of (step w1 (NewOpacity v)) = w1 ∧
  Forall (λ l, options_opacity l = v / Qc_of_Z 100) (imageryLayers (this w1)) ∧
  same_layers (imageryLayers (this w)) (imageryLayers (this w1)) ∧
  state_error (this w1) = state_error (this w) ∧
  mapBounds (this w1) = mapBounds (this w).
Proof.
  simpl. repeat split.
  - unfold componentDidUpdate, with_this, set_imageryLayers. simpl.
    by rewrite fmap_setOpacity_setOpacity.
  - apply Forall_fmap, Forall_forall. by intros l _.
  - apply same_layers_setOpacity.
Qed.

(** C8 as stated fails while loading: tile A has answered, tile B is
    still pending, and a new opacity of 50 changes A's layer. *)
Lemma opacity_while_loading_counterexample :
  let w := loadAll tilesAB (Qc_of_Z 100) false heapAB [(0%nat, Done docA)] in
  let w1 := world_of (step w (NewOpacity (Qc_of_Z 50))) in
  called (loader w) = false ∧
  xhr_state <$> default [] (tileJsonRequests (this w)) = [Settled; Pending] ∧
  options_opacity <$> imageryLayers (this w) = [1] ∧
  options_opacity <$> imageryLayers (this w1) = [Qc_of_Z 50 / Qc_of_Z 100] ∧
  Qc_of_Z 50 / Qc_of_Z 100 ≠ 1.
Proof.
  repeat split; by vm_compute.
Qed.

(** ** Click hit-test *)

Lemma click_handler_miss latlng layers :
  (∀ l, l ∈ layers → hit latlng l = false) → click_handler latlng layers = layers.
Proof.
  induction layers as [|l layers IH]; intros H; [done|]. simpl.
  pose proof (H l (list_elem_of_here _ _)) as Hl. unfold hit in Hl. rewrite Hl.
  f_equal. apply IH. intros l' Hl'. apply H. by right.
Qed.

Lemma click_handler_first latlng pre l post :
  (∀ x, x ∈ pre → hit latlng x = false) → hit latlng l = true →
  click_handler latlng (pre ++ l :: post)
  = pre ++ set_layer_popupOpened (S (popupOpened l)) l :: post.
Proof.
  induction pre as [|x pre IH]; intros Hpre Hl; simpl.
  - unfold hit in Hl. rewrite Hl. unfold openPopup.
    apply andb_true_iff in Hl as [-> _]. done.
  - pose proof (Hpre x (list_elem_of_here _ _)) as Hx. unfold hit in Hx. rewrite Hx.
    f_equal. apply IH; [|done]. intros y Hy. apply Hpre. by right.
Qed.

Lemma click_handler_detached latlng layers i l :
  layers !! i = Some l → _map l = false → click_handler latlng layers !! i = Some l.
Proof.
  revert i. induction layers as [|x layers IH]; intros i Hi Hl; [done|]. simpl.
  destruct (_map x && contains (options_bounds x) latlng) eqn:Hx.
  - destruct i as [|i]; [|done]. simpl in Hi. injection Hi as ->.
    by rewrite Hl in Hx.
  - destruct i as [|i]; [done|]. simpl in *. by apply IH.
Qed.

(** C10.  The click listener looks only at layers that are on the map:
    a layer that is off the map is left exactly as it was, also when its
    bounds contain the point; the first element of [imageryLayers] that is
    on the map and contains the point gets the one [openPopup] call, all
    elements before and after it are untouched; when no element on the map
    contains the point the listener changes nothing. *)
Theorem click_skips_detached_layers (latlng : LatLng) (layers : list TileLayer) :
  (∀ i l, layers !! i = Some l → _map l = false →
          click_handler latlng layers !! i = Some l) ∧
  (∀ pre l post,
     layers = pre ++ l :: post →
     (∀ x, x ∈ pre → _map x = false ∨ contains (options_bounds x) latlng = false) →
     _map l = true → contains (options_bounds l) latlng = true →
     click_handler latlng layers
     = pre ++ set_layer_popupOpened (S (popupOpened l)) l :: post) ∧
  ((∀ x, x ∈ layers → _map x = false ∨ contains (options_bounds x) latlng = false) →
   click_handler latlng layers = layers).
Proof.
  split; [|split].
  - intros i l. apply click_handler_detached.
  - intros pre l post -> Hpre Hm Hc. apply click_handler_first.
    + intros x Hx. unfold hit. destruct (Hpre x Hx) as [-> | ->]; [done|].
      apply andb_false_r.
    + unfold hit. by rewrite Hm, Hc.
  - intros H. apply click_handler_miss. intros x Hx. unfold hit.
    destruct (H x Hx) as [-> | ->]; [done|]. apply andb_false_r.
Qed.

Lemma click_skips_detached_layers_witness :
  _map <$> imageryLayers (this worldPQ) = [false; true] ∧
  click_handler (mkLatLng (Qc_of_Z 7) (Qc_of_Z 7)) (imageryLayers (this worldPQ)) !! 0%nat
  = imageryLayers (this worldPQ) !! 0%nat.
Proof.
  split; [by vm_compute|].
  destruct (imageryLayers (this worldPQ) !! 0%nat) as [l|] eqn:Hl; [|by vm_compute in Hl].
  refine (proj1 (click_skips_detached_layers (mkLatLng (Qc_of_Z 7) (Qc_of_Z 7))
            (imageryLayers (this worldPQ))) 0%nat l Hl _).
  vm_compute in Hl. injection Hl as <-. reflexivity.
Defined.

Lemma click_handler_find latlng (layers : list TileLayer) :
  click_handler latlng layers =
    match list_find (λ l, hit latlng l = true) layers with
    | Some (i, l) => <[i := set_layer_popupOpened (S (popupOpened l)) l]> layers
    | None => layers
    end.
Proof.
  destruct (list_find _ _) as [[i l]|] eqn:Hfind.
  - apply list_find_Some in Hfind as (Hi & Hl & Hpre).
    rewrite <- (take_drop_middle _ _ _ Hi) at 1.
    rewrite click_handler_first; [|intros x Hx|done].
    + rewrite <- (take_drop_middle _ _ _ Hi) at 3.
      rewrite insert_app_r_alt; rewrite length_take_le; try lia.
      * by rewrite Nat.sub_diag.
      * apply lookup_lt_Some in Hi. lia.
      * apply lookup_lt_Some in Hi. lia.
    + apply list_elem_of_lookup in Hx as [j Hj].
      pose proof (lookup_lt_Some _ _ _ Hj) as Hlt. rewrite length_take in Hlt.
      rewrite lookup_take_lt in Hj by lia.
      specialize (Hpre j x Hj). destruct (hit latlng x); [|done].
      exfalso. apply Hpre; [lia|done].
  - apply click_handler_miss. intros l Hl.
    eapply list_find_None, Forall_forall in Hfind; [|exact Hl].
    by destruct (hit latlng l).
Qed.

(** C5 as stated fails: both layers contain the point, P is first in
    [imageryLayers] but off the map, and the popup opens on Q. *)
Lemma click_first_containing_counterexample :
  let p := mkLatLng (Qc_of_Z 7) (Qc_of_Z 7) in
  let w := world_of (step worldPQ (Click p)) in
  (λ l, contains (options_bounds l) p) <$> imageryLayers (this worldPQ) = [true; true] ∧
  layer_meta <$> imageryLayers (this worldPQ) = [0; 1]%nat ∧
  popupOpened <$> imageryLayers (this worldPQ) = [0; 0]%nat ∧
  popupOpened <$> imageryLayers (this w) = [0; 1]%nat.
Proof. by vm_compute. Qed.

(** ** What the handlers write outside the instance *)

Lemma property_write_name r name h r' k :
  property (write_name r name h) r' k =
    if decide (r' = r ∧ k = "name") then Some (VStr name) else property h r' k.
Proof.
  unfold property, write_name. destruct (decide (r' = r)) as [->|Hr].
  - rewrite lookup_insert_eq. simpl. destruct (decide (k = "name")) as [->|Hk].
    + rewrite lookup_insert_eq. by rewrite decide_True.
    + rewrite lookup_insert_ne by done. rewrite decide_False; [done|]. by intros [_ ?].
  - rewrite lookup_insert_ne by done. rewrite decide_False; [done|]. by intros [? _].
Qed.

Lemma respond_cases i r w :
  respond i r w = Returns w ∨
  ∃ tile, pending w i ∧ props_tiles (this w) !! i = Some tile.
Proof.
  unfold respond, pending.
  destruct (default [] (tileJsonRequests (this w)) !! i) as [x|]; [|by left].
  destruct (props_tiles (this w) !! i) as [tile|]; [|by left].
  destruct (xhr_state x) eqn:Hx; [|by left..]. right. eauto.
Qed.

Lemma componentWillUnmount_frame w :
  props_tiles (this (world_of (componentWillUnmount w))) = props_tiles (this w) ∧
  heap (world_of (componentWillUnmount w)) = heap w ∧
  window (world_of (componentWillUnmount w)) = window w.
Proof.
  unfold componentWillUnmount, map_remove.
  destruct (map (this w)); simpl; [|done].
  destruct (tileJsonRequests (this w)) as [[|x rs]|]; done.
Qed.

Lemma componentDidMount_frame h w :
  props_tiles (this (world_of (componentDidMount h w))) = props_tiles (this w) ∧
  heap (world_of (componentDidMount h w)) = heap w ∧
  window (world_of (componentDidMount h w)) = mkWindow (Some h) (Some []) true.
Proof.
  unfold componentDidMount. destruct (props_tiles (this w)) eqn:Ht; simpl; [|by rewrite Ht].
  match goal with |- context [once_callback None ?w0] =>
    destruct (once_callback_frame None w0) as [-> _ _ _ _ _ -> ->] end.
  simpl. by rewrite Ht.
Qed.

Lemma step_frame w e :
  props_tiles (this (world_of (step w e))) = props_tiles (this w) ∧
  (∀ r k, k ≠ "name" → property (heap (world_of (step w e))) r k = property (heap w) r k) ∧
  (match e with Mount _ | CreatePolygon _ _ _ => True
   | _ => window (world_of (step w e)) = window w end).
Proof.
  destruct e as [h|i r|p|v|n|pts c n|]; simpl.
  - destruct (componentDidMount_frame h w) as (-> & -> & _). done.
  - destruct (respond_cases i r w) as [-> | (tile & Hp & Ht)]; [done|].
    destruct r as [info|err]; [destruct (usable info) eqn:Hu|].
    + destruct (respond_done_frame i info w tile Hp Ht Hu)
        as (-> & _ & _ & _ & -> & -> & _).
      repeat split. intros r k Hk. rewrite property_write_name.
      rewrite decide_False; [done|]. by intros [_ ?].
    + by rewrite (respond_done_unusable _ _ _ _ Hp Ht Hu).
    + destruct (respond_fail_frame i err w tile Hp Ht) as (-> & _ & _ & _ & -> & -> & _).
      done.
  - unfold click. destruct (map (this w)) as [lm|]; [|done].
    by destruct (onClick lm && negb (removed lm)).
  - done.
  - unfold toggle_overlay. by destruct (_ !! n).
  - unfold createPolygon. destruct (polygonArray (window w)); [|done].
    by destruct (window_map (window w)).
  - destruct (componentWillUnmount_frame w) as (-> & -> & ->). done.
Qed.

Lemma run_frame es : ∀ w,
  props_tiles (this (run w es)) = props_tiles (this w) ∧
  (∀ r k, k ≠ "name" → property (heap (run w es)) r k = property (heap w) r k).
Proof.
  induction es as [|e es IH]; intros w; [done|]. rewrite run_cons.
  destruct (IH (world_of (step w e))) as [-> H], (step_frame w e) as (-> & H' & _).
  split; [done|]. intros r k Hk. by rewrite H, H'.
Qed.

(** C7 (as amended).  No handler changes [props.tiles]: every descriptor
    keeps its [url] and its reference to its [meta] object.  The layer
    built from a successful answer carries that same object, not a copy.
    The object itself is written by each successful answer (with a
    document that has its four bounds): its [name] property becomes the
    document's name; every other property of every object keeps its value
    throughout. *)
Theorem meta_shared_and_named (w : World) (es : list event) :
  props_tiles (this (run w es)) = props_tiles (this w) ∧
  (∀ r k, k ≠ "name" → property (heap (run w es)) r k = property (heap w) r k) ∧
  (∀ i info tile,
     pending w i → props_tiles (this w) !! i = Some tile → well_formed info →
     let w' := world_of (step w (Respond i (Done info))) in
     layer_meta <$> last (imageryLayers (this w')) = Some (meta tile) ∧
     property (heap w') (meta tile) "name" = Some (VStr (info_name info)) ∧
     heap w' = write_name (meta tile) (info_name info) (heap w)).
Proof.
  destruct (run_frame es w) as [H1 H2]. split; [done|]. split; [done|].
  intros i info tile Hp Ht Hwf. simpl.
  destruct (respond_done_frame i info w tile Hp Ht (usable_well_formed _ Hwf))
    as (_ & _ & _ & Hl & Hh & _).
  rewrite Hh. repeat split.
  - apply same_layers_last in Hl. rewrite last_snoc in Hl.
    apply (f_equal (fmap layer_meta)) in Hl. by destruct (last _).
  - rewrite property_write_name. by rewrite decide_True.
Qed.

Lemma meta_shared_and_named_witness :
  let w := world_of (componentDidMount 0 (initial tilesAB (Qc_of_Z 100) false heapAB)) in
  pending w 1 ∧
  props_tiles (this w) !! 1%nat = Some (mkTile "B" 1) ∧
  property (heap (world_of (step w (Respond 1 (Done docB))))) 1 "name" = Some (VStr "B").
Proof.
  assert (pending (world_of (componentDidMount 0
            (initial tilesAB (Qc_of_Z 100) false heapAB))) 1) as Hp.
  { exists (mkXHR "B" Pending). by vm_compute. }
  split; [exact Hp|]. split; [reflexivity|].
  exact (proj1 (proj2 (proj2 (proj2 (meta_shared_and_named _ []))
    1%nat docB (mkTile "B" 1) Hp eq_refl eq_refl))).
Defined.

(** C7 as stated fails: loading tile A writes the [name] property of the
    descriptor's [meta] object. *)
Lemma meta_unchanged_counterexample :
  let w := loadAll tilesAB (Qc_of_Z 100) false heapAB [(0%nat, Done docA)] in
  property heapAB 0 "name" = None ∧
  property (heap w) 0 "name" = Some (VStr "A") ∧
  heap w ≠ heapAB.
Proof.
  split; [by vm_compute|]. split; [by vm_compute|].
  intros H. apply (f_equal (λ h, property h 0 "name")) in H.
  vm_compute in H. discriminate H.
Qed.

(** C9 (as amended).  [imageryLayers], [mapBounds], [tileJsonRequests] and
    the map handle are fields of the instance.  Mounting nevertheless
    publishes the map handle as [window.map], resets the page-wide
    [window.polygonArray] to the empty array and installs
    [window.createPolygon], which appends to that array and draws on
    whatever map [window.map] names.  No other handler writes a property
    of [window]. *)
Theorem window_writes (w : World) :
  (∀ h, window (world_of (step w (Mount h))) = mkWindow (Some h) (Some []) true) ∧
  (∀ points col name arr,
     polygonArray (window w) = Some arr →
     window (world_of (step w (CreatePolygon points col name)))
     = set_polygonArray
         (Some (arr ++ [(name, mkPolygon points col (window_map (window w)))])) (window w)) ∧
  (∀ e, (∀ h, e ≠ Mount h) → (∀ points col name, e ≠ CreatePolygon points col name) →
        window (world_of (step w e)) = window w).
Proof.
  split; [|split].
  - intros h. simpl. by destruct (componentDidMount_frame h w) as (_ & _ & ->).
  - intros points col name arr Ha. simpl. unfold createPolygon. rewrite Ha.
    by destruct (window_map (window w)).
  - intros e Hm Hc. pose proof (step_frame w e) as (_ & _ & H).
    destruct e; try done; [by destruct (Hm h) | by destruct (Hc points col name)].
Qed.

Lemma window_writes_witness :
  let w := loadAll tilesAB (Qc_of_Z 100) false heapAB [] in
  polygonArray (window w) = Some [] ∧
  polygonArray (window (world_of (step w (CreatePolygon [] "red" "plot")))) =
    Some [("plot", mkPolygon [] "red" (Some 0%nat))] ∧
  window (world_of (step w Unmount)) = window w.
Proof.
  intros w. split; [reflexivity|]. split.
  - rewrite (proj1 (proj2 (window_writes w)) [] "red" "plot" [] eq_refl). reflexivity.
  - apply (proj2 (proj2 (window_writes w))); intros; discriminate.
Defined.

(** C9 as stated fails: mounting writes three properties of [window]. *)
Lemma window_untouched_counterexample :
  let w := initial tilesAB (Qc_of_Z 100) false heapAB in
  window w = mkWindow None None false ∧
  window (world_of (step w (Mount 7))) = mkWindow (Some 7%nat) (Some []) true ∧
  window (world_of (step w (Mount 7))) ≠ window w.
Proof. split; [done|]. split; [done|]. discriminate. Qed.

(** ** Every layer of the component has corners *)

Lemma cornered_same_layers ls ls' :
  same_layers ls ls' →
  Forall (λ l, has_corners (options_bounds l) = true) ls →
  Forall (λ l, has_corners (options_bounds l) = true) ls'.
Proof.
  intros Hs H.
  apply (same_layers_proj options_bounds _ _ (λ _ _, eq_refl)) in Hs.
  cut (Forall (λ b, has_corners b = true) (options_bounds <$> ls')).
  { intros H'. by apply Forall_fmap in H'. }
  rewrite Hs. by apply Forall_fmap.
Qed.

Lemma click_handler_cornered latlng layers :
  Forall (λ l, has_corners (options_bounds l) = true) layers →
  Forall (λ l, has_corners (options_bounds l) = true) (click_handler latlng layers).
Proof.
  induction 1 as [|l layers Hl H IH]; simpl; [done|].
  destruct (_map l && contains (options_bounds l) latlng).
  - constructor; [|done]. unfold openPopup. by destruct (_map l).
  - by constructor.
Qed.

Lemma step_cornered w e :
  Forall (λ l, has_corners (options_bounds l) = true) (imageryLayers (this w)) →
  Forall (λ l, has_corners (options_bounds l) = true)
         (imageryLayers (this (world_of (step w e)))).
Proof.
  intros H. destruct e as [h|i r|p|v|n|pts c n|]; simpl.
  - unfold componentDidMount. destruct (props_tiles (this w)); [|done].
    match goal with |- context [once_callback None ?w0] =>
      destruct (once_callback_frame None w0) as [_ _ _ _ Hl _ _ _] end.
    by apply (cornered_same_layers _ _ Hl).
  - destruct (respond_cases i r w) as [-> | (tile & Hp & Ht)]; [done|].
    destruct r as [info|err]; [destruct (usable info) eqn:Hu|].
    + destruct (respond_done_frame i info w tile Hp Ht Hu) as (_ & _ & _ & Hl & _).
      apply (cornered_same_layers _ _ Hl), Forall_app. split; [done|].
      by repeat constructor.
    + by destruct (respond_done_dropped i info w tile Hp Ht Hu) as (_ & _ & -> & _).
    + destruct (respond_fail_frame i err w tile Hp Ht) as (_ & _ & _ & Hl & _).
      by apply (cornered_same_layers _ _ Hl).
  - unfold click. destruct (map (this w)) as [lm|]; [|done].
    destruct (onClick lm && negb (removed lm)); [|done].
    by apply click_handler_cornered.
  - by apply Forall_fmap.
  - unfold toggle_overlay. destruct (_ !! n); [|done]. simpl.
    by apply Forall_alter.
  - unfold createPolygon. destruct (polygonArray (window w)); [|done].
    by destruct (window_map (window w)).
  - unfold componentWillUnmount, map_remove.
    destruct (map (this w)); simpl; [|done].
    assert (Forall (λ l, has_corners (options_bounds l) = true)
              (set_layer_map false <$> imageryLayers (this w))) by by apply Forall_fmap.
    by destruct (tileJsonRequests (this w)) as [[|x rs]|].
Qed.

(** In every world that the page can reach, the bounds of each element of
    [imageryLayers] have both corners: the hit-test never meets a bounds
    object it could not read. *)
Lemma layers_have_corners tiles opacity bg hp es :
  Forall (λ l, has_corners (options_bounds l) = true)
         (imageryLayers (this (run (initial tiles opacity bg hp) es))).
Proof.
  assert (∀ w, Forall (λ l, has_corners (options_bounds l) = true) (imageryLayers (this w)) →
               Forall (λ l, has_corners (options_bounds l) = true)
                      (imageryLayers (this (run w es)))) as H.
  { induction es as [|e es IH]; intros w Hw; [done|].
    rewrite run_cons. by apply IH, step_cornered. }
  apply H. constructor.
Qed.

(** * Further properties of Map.jsx *)

(** ** Answers that are not truthy failures *)

Lemma Map_eta (m : Map) : set_map (map m) m = m.
Proof. by destruct m. Qed.

(** Without a truthy error the continuation writes at most [this.map]. *)
Lemma iteratorCallback_silent err w :
  from_option truthy false err = false →
  this (world_of (iteratorCallback err w))
  = set_map (map (this (world_of (iteratorCallback err w)))) (this w).
Proof.
  intros He. unfold iteratorCallback, once_callback, callback. rewrite He. simpl.
  case_decide; simpl; [|by rewrite Map_eta].
  destruct (called (loader w)); simpl; [by rewrite Map_eta|].
  destruct (map (this w) ≫= fitBounds (mapBounds (this w))); simpl;
    [done|by rewrite Map_eta].
Qed.

Lemma respond_keeps_error i r w :
  quiet r → state_error (this (world_of (respond i r w))) = state_error (this w).
Proof.
  intros Hr. destruct (respond_cases i r w) as [-> | (tile & Hp & Ht)]; [done|].
  rewrite (respond_pending _ _ _ _ Hp Ht).
  destruct r as [info|err]; [destruct (usable info) eqn:Hu|].
  - rewrite (on_done_usable _ _ _ Hu), iteratorCallback_silent by done. done.
  - by rewrite (on_done_unusable _ _ _ Hu).
  - unfold on_fail. rewrite iteratorCallback_silent by (simpl; by rewrite Hr). done.
Qed.

Lemma first_error_None_cons i r answers :
  first_error ((i, r) :: answers) = None → quiet r ∧ first_error answers = None.
Proof. destruct r as [info|err]; simpl; [done|]. by destruct (truthy err). Qed.

Lemma run_keeps_error answers : ∀ w,
  first_error answers = None →
  state_error (this (run w (answers_events answers))) = state_error (this w).
Proof.
  induction answers as [|[i r] answers IH]; intros w H; [done|].
  apply first_error_None_cons in H as [Hr H].
  unfold answers_events. rewrite fmap_cons, run_cons. cbn [step fst snd].
  etrans; [by apply IH|]. by apply respond_keeps_error.
Qed.

Lemma mount_keeps_error h w :
  state_error (this (world_of (componentDidMount h w))) = state_error (this w).
Proof.
  unfold componentDidMount. destruct (props_tiles (this w)); [|done].
  unfold once_callback, callback. simpl.
  by destruct (fitBounds _ _).
Qed.

(** X1.  A fetch that fails with an empty status text is not an error for
    [async.each]: as long as no answer carries a truthy error,
    [state.error] keeps the empty string it was constructed with, whatever
    the answers, their order and their number. *)
Theorem no_error_without_truthy_failure tiles opacity bg hp
    (answers : list (nat * response)) :
  first_error answers = None →
  state_error (this (loadAll tiles opacity bg hp answers)) = Some EmptyString.
Proof.
  intros H. unfold loadAll. fold (answers_events answers).
  rewrite run_keeps_error by done. by rewrite mount_keeps_error.
Qed.

Lemma no_error_without_truthy_failure_witness :
  first_error [(1%nat, Fail (ErrText EmptyString)); (0%nat, Done docA)] = None ∧
  state_error (this (loadAll tilesAB (Qc_of_Z 100) false heapAB
    [(1%nat, Fail (ErrText EmptyString)); (0%nat, Done docA)])) = Some EmptyString.
Proof.
  split; [reflexivity|].
  exact (no_error_without_truthy_failure tilesAB (Qc_of_Z 100) false heapAB
    [(1%nat, Fail (ErrText EmptyString)); (0%nat, Done docA)] eq_refl).
Defined.

(** ** Before the load has ended *)

Lemma run_quiet answers : ∀ w,
  called (loader w) = false →
  (completed (loader w) + length answers < each_length (loader w))%nat →
  in_flight w answers →
  first_error answers = None →
  called (loader (run w (answers_events answers))) = false ∧
  map (this (run w (answers_events answers))) = map (this w) ∧
  imageryLayers (this (run w (answers_events answers))) =
    imageryLayers (this w) ++ loaded_layers (props_tiles (this w)) answers.
Proof.
  induction answers as [|[i r] answers IH]; intros w Hc Hlen Hf Herr.
  { simpl. by rewrite app_nil_r. }
  destruct (in_flight_head _ _ _ _ Hf) as [Hp [tile Ht]].
  pose proof (in_flight_cons _ _ _ _ _ Hf Ht) as Hf'.
  destruct (respond_keeps i r w tile Hp Ht) as (Ht' & _ & Hl' & _).
  apply first_error_None_cons in Herr as [Hr Herr].
  unfold answers_events in *. rewrite fmap_cons, run_cons. cbn [step fst snd].
  rewrite (loaded_layers_cons _ _ _ _ _ Ht). simpl in Hlen.
  destruct r as [info|e]; [destruct (usable info) eqn:Hu|].
  - destruct (respond_done_quiet i info w tile Hp Ht Hu Hc)
      as (_ & H2 & H3 & H4 & H5); [lia|].
    destruct (IH _ H4) as (IH1 & IH2 & IH3); [lia|done|done|].
    rewrite IH1, IH2, IH3, H2, H3, Ht'. simpl. rewrite Hu.
    by rewrite <- app_assoc.
  - destruct (respond_done_dropped i info w tile Hp Ht Hu) as (_ & H2 & H3 & H4).
    destruct (IH (world_of (respond i (Done info) w))) as (IH1 & IH2 & IH3);
      [by rewrite H4|rewrite H4; lia|done|done|].
    rewrite IH1, IH2, IH3, H2, H3, Ht'. simpl. by rewrite Hu.
  - destruct (respond_fail_quiet i e w tile Hp Ht Hr Hc) as (_ & H2 & H3 & H4 & H5); [lia|].
    destruct (IH _ H4) as (IH1 & IH2 & IH3); [lia|done|done|].
    by rewrite IH1, IH2, IH3, H2, H3, Ht'.
Qed.

Lemma click_unregistered p w lm :
  map (this w) = Some lm → onClick lm = false → click p w = w.
Proof. intros Hm Hc. unfold click. by rewrite Hm, Hc. Qed.

(** X2.  The click listener exists only once the load has ended well:
    while some tile has not answered yet (and no answer was a truthy
    error), and after a load that ended with an error, a click on the map
    changes nothing at all. *)
Theorem click_inert_until_loaded tiles opacity bg hp
    (answers : list (nat * response)) (latlng : LatLng) :
  NoDup answers.*1 →
  (∀ a, a ∈ answers → (a.1 < length tiles)%nat) →
  first_error answers ≠ None ∨ (length answers < length tiles)%nat →
  click latlng (loadAll tiles opacity bg hp answers) = loadAll tiles opacity bg hp answers.
Proof.
  intros Hnd Hr Hcase. unfold loadAll.
  destruct (answers_in_flight 0 tiles opacity bg hp answers Hnd Hr) as [Hf Hlen].
  destruct tiles as [|tile tiles].
  { assert (answers = []) as -> by (destruct answers; [done|simpl in Hlen; lia]).
    destruct Hcase as [?|?]; [done|simpl in *; lia]. }
  destruct (mount_loader 0 tile tiles opacity bg hp) as (Hc & Hk & _ & Hm).
  destruct (mount_frame 0 (tile :: tiles) opacity bg hp) as (_ & _ & _ & _ & _ & _ & Hn).
  destruct (first_error answers) as [err|] eqn:Herr.
  - destruct (run_until_error err answers _ Hc) as (_ & R2 & _); [|done|done|].
    { rewrite Hk, Hn. simpl in *. lia. }
    eapply click_unregistered; [by rewrite R2, Hm|done].
  - destruct Hcase as [?|Hlt]; [done|].
    destruct (run_quiet answers _ Hc) as (_ & R2 & _); [|done|done|].
    { rewrite Hk, Hn. simpl in *. lia. }
    unfold answers_events in R2.
    eapply click_unregistered; [by rewrite R2, Hm|done].
Qed.

Lemma click_inert_until_loaded_witness :
  NoDup [(1%nat, Done docB)].*1 ∧
  (length [(1%nat, Done docB)] < length tilesAB)%nat ∧
  click (mkLatLng (Qd 3855 100) (Qd (-925) 100))
        (loadAll tilesAB (Qc_of_Z 100) false heapAB [(1%nat, Done docB)])
  = loadAll tilesAB (Qc_of_Z 100) false heapAB [(1%nat, Done docB)].
Proof.
  assert (NoDup [(1%nat, Done docB)].*1) as Hnd
    by (apply (bool_decide_unpack _); by vm_compute).
  assert (length [(1%nat, Done docB)] < length tilesAB)%nat as Hlt by (simpl; lia).
  split; [exact Hnd|]. split; [exact Hlt|].
  apply (click_inert_until_loaded tilesAB (Qc_of_Z 100) false heapAB
           [(1%nat, Done docB)] _ Hnd); [|by right].
  intros a Ha. apply list_elem_of_singleton in Ha as ->. simpl. lia.
Defined.

(** ** When a click is heard *)

Lemma load_unfinished_map tiles opacity bg hp (answers : list (nat * response)) :
  NoDup answers.*1 →
  (∀ a, a ∈ answers → (a.1 < length tiles)%nat) →
  first_error answers ≠ None ∨ (length answers < length tiles)%nat →
  map (this (loadAll tiles opacity bg hp answers)) = Some (mkLMap 0 false None None false).
Proof.
  intros Hnd Hr Hcase. unfold loadAll.
  destruct (answers_in_flight 0 tiles opacity bg hp answers Hnd Hr) as [Hf Hlen].
  destruct tiles as [|tile tiles].
  { assert (answers = []) as -> by (destruct answers; [done|simpl in Hlen; lia]).
    destruct Hcase as [?|?]; [done|simpl in *; lia]. }
  destruct (mount_loader 0 tile tiles opacity bg hp) as (Hc & Hk & _ & Hm).
  destruct (mount_frame 0 (tile :: tiles) opacity bg hp) as (_ & _ & _ & _ & _ & _ & Hn).
  destruct (first_error answers) as [err|] eqn:Herr.
  - destruct (run_until_error err answers _ Hc) as (_ & R2 & _); [|done|done|].
    { rewrite Hk, Hn. simpl in *. lia. }
    by rewrite R2, Hm.
  - destruct Hcase as [?|Hlt]; [done|].
    destruct (run_quiet answers _ Hc) as (_ & R2 & _); [|done|done|].
    { rewrite Hk, Hn. simpl in *. lia. }
    unfold answers_events in R2. by rewrite R2, Hm.
Qed.

Lemma unmounted_not_listening w : listening (world_of (componentWillUnmount w)) = false.
Proof.
  unfold componentWillUnmount, map_remove, listening.
  destruct (map (this w)) as [lm|] eqn:Hm; simpl; [|by rewrite Hm].
  destruct (tileJsonRequests (this w)) as [[|x rs]|]; simpl; apply andb_false_r.
Qed.

(** C5 (as amended).  A click is heard when the click listener is
    registered, which line 226 does in the success branch of the load
    only, and the map has not been removed.  A click that is heard gives
    one [openPopup] call to the first element of [imageryLayers], in
    completion order, that is on the map and whose bounds contain the
    point, and to no other layer; without such an element nothing changes.
    A click that is not heard leaves every layer as it was: that is the
    case while some tile has not answered, after a load that ended with
    an error, and after unmounting. *)
Theorem click_opens_first_attached :
  (∀ (w : World) (latlng : LatLng),
     imageryLayers (this (world_of (step w (Click latlng)))) =
       if listening w then
         match list_find (λ l, hit latlng l = true) (imageryLayers (this w)) with
         | Some (i, l) =>
             <[i := set_layer_popupOpened (S (popupOpened l)) l]> (imageryLayers (this w))
         | None => imageryLayers (this w)
         end
       else imageryLayers (this w)) ∧
  (∀ tiles opacity bg hp (answers : list (nat * response)),
     NoDup answers.*1 →
     (∀ a, a ∈ answers → (a.1 < length tiles)%nat) →
     first_error answers ≠ None ∨ (length answers < length tiles)%nat →
     listening (loadAll tiles opacity bg hp answers) = false) ∧
  (∀ w : World, listening (world_of (step w Unmount)) = false).
Proof.
  split; [|split].
  - intros w latlng. simpl. unfold click, listening.
    destruct (map (this w)) as [lm|]; [|done].
    destruct (onClick lm && negb (removed lm)); [|done]. simpl.
    apply click_handler_find.
  - intros tiles opacity bg hp answers Hnd Hr Hcase. unfold listening.
    by rewrite (load_unfinished_map tiles opacity bg hp answers Hnd Hr Hcase).
  - intros w. apply unmounted_not_listening.
Qed.

Lemma click_opens_first_attached_witness :
  listening worldPQ = true ∧
  popupOpened <$> imageryLayers (this worldPQ) = [0; 0]%nat ∧
  popupOpened <$> imageryLayers (this (world_of (step worldPQ
     (Click (mkLatLng (Qc_of_Z 7) (Qc_of_Z 7)))))) = [0; 1]%nat ∧
  NoDup [(1%nat, Done docB)].*1 ∧
  (length [(1%nat, Done docB)] < length tilesAB)%nat ∧
  listening (loadAll tilesAB (Qc_of_Z 100) false heapAB [(1%nat, Done docB)]) = false.
Proof.
  assert (NoDup [(1%nat, Done docB)].*1) as Hnd
    by (apply (bool_decide_unpack _); by vm_compute).
  assert (length [(1%nat, Done docB)] < length tilesAB)%nat as Hlt by (simpl; lia).
  split; [by vm_compute|]. split; [by vm_compute|]. split.
  { rewrite (proj1 click_opens_first_attached worldPQ (mkLatLng (Qc_of_Z 7) (Qc_of_Z 7))).
    by vm_compute. }
  split; [exact Hnd|]. split; [exact Hlt|].
  apply (proj1 (proj2 click_opens_first_attached) tilesAB (Qc_of_Z 100) false heapAB
           [(1%nat, Done docB)] Hnd); [|by right].
  intros a Ha. apply list_elem_of_singleton in Ha as ->. simpl. lia.
Defined.

(** ** The load that ends well *)

Lemma respond_done_last i info w tile lm :
  pending w i → props_tiles (this w) !! i = Some tile →
  usable info = true →
  called (loader w) = false →
  S (completed (loader w)) = each_length (loader w) →
  map (this w) = Some lm →
  let w' := world_of (respond i (Done info) w) in
  throws (respond i (Done info) w) = false ∧
  state_error (this w') = state_error (this w) ∧
  imageryLayers (this w') = imageryLayers (this w) ++ [new_layer tile info] ∧
  called (loader w') = true ∧
  is_Some (mapBounds (this w')) ∧
  has_corners (aggregate w') = true ∧
  map (this w') =
    Some (mkLMap (handle lm) (removed lm) (mapBounds (this w'))
            (Some (build_overlays (heap w') (imageryLayers (this w')))) true).
Proof.
  intros Hp Ht Hu Hc Hn Hm. simpl.
  rewrite (respond_pending _ _ _ _ Hp Ht), (on_done_usable _ _ _ Hu).
  unfold iteratorCallback, once_callback, callback, aggregate. simpl.
  rewrite decide_True by done. simpl. rewrite Hc, Hm. simpl.
  unfold usable in Hu. destruct (layer_bounds info) as [|sw ne] eqn:Hb; [done|].
  destruct (mapBounds (this w)) as [[|sw0 ne0]|] eqn:Hmb; simpl;
    rewrite ?Hmb; simpl; repeat split; eauto.
Qed.

Lemma answer_all_fst doc order : (answer_all doc order).*1 = order.
Proof.
  unfold answer_all. rewrite <- list_fmap_compose.
  induction order as [|i order IH]; [done|]. csimpl. by rewrite IH.
Qed.

Lemma run_to_ready (doc : nat → TileJson) order : ∀ w lm,
  order ≠ [] →
  called (loader w) = false →
  (completed (loader w) + length order = each_length (loader w))%nat →
  in_flight w (answer_all doc order) →
  (∀ i, i ∈ order → usable (doc i) = true) →
  map (this w) = Some lm →
  let w' := run w (answers_events (answer_all doc order)) in
  state_error (this w') = state_error (this w) ∧
  called (loader w') = true ∧
  has_corners (aggregate w') = true ∧
  map (this w') =
    Some (mkLMap (handle lm) (removed lm) (mapBounds (this w'))
            (Some (build_overlays (heap w') (imageryLayers (this w')))) true).
Proof.
  induction order as [|i order IH]; intros w lm Hne Hc Hlen Hf Hu Hm; [done|].
  unfold answer_all, answers_events in *. rewrite !fmap_cons in *.
  destruct (in_flight_head _ _ _ _ Hf) as [Hp [tile Ht]].
  pose proof (in_flight_cons _ _ _ _ _ Hf Ht) as Hf'.
  rewrite run_cons. cbn [step fst snd]. simpl in Hlen.
  assert (usable (doc i) = true) as Hui by (apply Hu; by left).
  destruct order as [|j order].
  - simpl.
    destruct (respond_done_last i (doc i) w tile lm Hp Ht Hui Hc) as (_&?&_&?&_&?&?);
      [simpl in Hlen; lia|done|done].
  - destruct (respond_done_quiet i (doc i) w tile Hp Ht Hui Hc)
      as (H1 & H2 & _ & H4 & H5); [simpl in Hlen; lia|].
    destruct (respond_keeps i (Done (doc i)) w tile Hp Ht) as (_ & _ & H6 & _).
    destruct (IH (world_of (respond i (Done (doc i)) w)) lm) as (I1 & I2 & I3 & I4);
      [done|done|rewrite H5, H6; simpl in *; lia|done| |by rewrite H2|].
    { intros k Hk. apply Hu. by right. }
    by rewrite I1, H1.
Qed.

(** X3.  When every tile of a non-empty list answers with a document that
    has its four bounds, in whatever order, the load ends in the success
    branch: [state.error] is still empty, the viewport has been fitted to
    [mapBounds], which has both corners, the layers control lists the
    overlays built from [imageryLayers], and the click listener is
    registered. *)
Theorem load_ready tiles opacity bg hp (doc : nat → TileJson) (order : list nat) :
  tiles ≠ [] →
  (∀ i, (i < length tiles)%nat → well_formed (doc i)) →
  order ≡ₚ seq 0 (length tiles) →
  let w := loadAll tiles opacity bg hp (answer_all doc order) in
  state_error (this w) = Some EmptyString ∧
  has_corners (aggregate w) = true ∧
  map (this w) =
    Some (mkLMap 0 false (mapBounds (this w))
            (Some (build_overlays (heap w) (imageryLayers (this w)))) true).
Proof.
  intros Hne Hwf Hperm. simpl. unfold loadAll.
  fold (answers_events (answer_all doc order)).
  destruct tiles as [|tile tiles]; [done|].
  destruct (mount_loader 0 tile tiles opacity bg hp) as (Hc & Hk & He & Hm).
  destruct (mount_frame 0 (tile :: tiles) opacity bg hp) as (Ht & _ & _ & _ & _ & _ & Hn).
  destruct (answers_in_flight 0 (tile :: tiles) opacity bg hp (answer_all doc order))
    as [Hf _].
  { rewrite answer_all_fst, Hperm. apply NoDup_seq. }
  { intros a Ha. apply list_elem_of_fmap in Ha as (i & -> & Hi).
    rewrite Hperm in Hi. by apply elem_of_seq in Hi as [_ Hi]. }
  assert (order ≠ []) as Hno by (intros ->; by apply Permutation_nil_l in Hperm).
  destruct (run_to_ready doc order _ (mkLMap 0 false None None false) Hno Hc)
    as (R1 & _ & R3 & R4); [|done| |exact Hm|].
  { rewrite Hk, Hn, Hperm, length_seq. done. }
  { intros i Hi. rewrite Hperm in Hi. apply elem_of_seq in Hi as [_ Hi].
    by apply usable_well_formed, Hwf. }
  by rewrite R1, He.
Qed.

Lemma load_ready_witness :
  tilesAB ≠ [] ∧
  [1; 0]%nat ≡ₚ seq 0 (length tilesAB) ∧
  (map (this (loadAll tilesAB (Qc_of_Z 100) false heapAB
     (answer_all (λ i, if i is 0%nat then docA else docB) [1; 0]%nat))) ≫= autolayers)
  = Some {[ "A" := 1%nat; "B" := 0%nat ]}.
Proof.
  assert (tilesAB ≠ []) as H0 by done.
  assert ([1; 0]%nat ≡ₚ seq 0 (length tilesAB)) as H1 by apply perm_swap.
  split; [exact H0|]. split; [exact H1|].
  rewrite (proj2 (proj2 (load_ready tilesAB (Qc_of_Z 100) false heapAB
    (λ i, if i is 0%nat then docA else docB) [1; 0]%nat H0
    ltac:(by intros [|i] _) H1))).
  by vm_compute.
Defined.

(** ** The overlays of the layers control *)



(** ** Invariants of the bounds *)

Lemma contains_spec sw ne p :
  contains (Corners sw ne) p = true ↔
  lat sw ≤ lat p ∧ lat p ≤ lat ne ∧ lng sw ≤ lng p ∧ lng p ≤ lng ne.
Proof.
  unfold contains. rewrite !andb_true_iff, !bool_decide_eq_true. tauto.
Qed.

Lemma contains_extend_l a b p :
  contains a p = true → contains (extend a b) p = true.
Proof.
  destruct a as [|sw ne]; [done|]. destruct b as [|sw2 ne2]; [done|].
  simpl extend. rewrite !contains_spec. simpl. intros (H1 & H2 & H3 & H4).
  repeat split;
    eauto using Qcle_trans, Math_min_le_r, Math_max_ge_r.
Qed.

Lemma contains_extend_r a b p :
  contains b p = true → contains (extend a b) p = true.
Proof. rewrite extend_comm. apply contains_extend_l. Qed.

Lemma union_all_contains bs b p :
  b ∈ bs → contains b p = true → contains (union_all bs) p = true.
Proof.
  induction bs as [|b' bs IH] using rev_ind; intros Hb Hp; [by apply elem_of_nil in Hb|].
  rewrite union_all_snoc. apply elem_of_app in Hb as [Hb|Hb].
  - apply contains_extend_l. by apply IH.
  - apply list_elem_of_singleton in Hb as ->. by apply contains_extend_r.
Qed.

Lemma ordered_extend a b : ordered a → ordered b → ordered (extend a b).
Proof.
  destruct a as [|sw ne], b as [|sw2 ne2]; simpl; try done.
  intros [H1 H2] [H3 H4]. split.
  - eapply Qcle_trans; [apply Math_min_le_l|]. eapply Qcle_trans; [exact H3|].
    apply Math_max_ge_l.
  - eapply Qcle_trans; [apply Math_min_le_l|]. eapply Qcle_trans; [exact H4|].
    apply Math_max_ge_l.
Qed.

Lemma ordered_extend_point b p : ordered b → ordered (extend_point b p).
Proof.
  destruct b as [|sw ne]; simpl; [intros _; split; apply Qcle_refl|].
  intros [H1 H2]. split.
  - eapply Qcle_trans; [apply Math_min_le_l|]. apply Math_max_ge_l.
  - eapply Qcle_trans; [apply Math_min_le_l|]. apply Math_max_ge_l.
Qed.

Lemma ordered_latLngBounds latlngs : ordered (latLngBounds latlngs).
Proof.
  unfold latLngBounds.
  assert (∀ b, ordered b → ordered (foldl extend_array b latlngs)) as H.
  { induction latlngs as [|a latlngs IH]; intros b Hb; [done|]. cbn [foldl]. apply IH.
    unfold extend_array. destruct (latLng a) as [p|]; [|exact Hb].
    exact (ordered_extend_point b p Hb). }
  by apply H.
Qed.

Lemma ordered_union_all bs : Forall ordered bs → ordered (union_all bs).
Proof.
  induction bs as [|b bs IH] using rev_ind; intros H; [done|].
  apply Forall_app in H as [H1 H2]. rewrite union_all_snoc.
  apply ordered_extend; [by apply IH|]. exact (Forall_inv H2).
Qed.

Lemma click_handler_bounds latlng layers :
  options_bounds <$> click_handler latlng layers = options_bounds <$> layers.
Proof.
  induction layers as [|l layers IH]; [done|]. simpl.
  destruct (_map l && contains (options_bounds l) latlng); csimpl.
  - unfold openPopup. by destruct (_map l).
  - by rewrite IH.
Qed.

Lemma alter_bounds (f : TileLayer → TileLayer) i (layers : list TileLayer) :
  (∀ l, options_bounds (f l) = options_bounds l) →
  options_bounds <$> alter f i layers = options_bounds <$> layers.
Proof.
  intros Hf. revert i. induction layers as [|l layers IH]; intros [|i]; csimpl;
    rewrite ?Hf, ?IH; done.
Qed.

(** What one event does to [mapBounds] and to the bounds of the layers. *)
Lemma step_bounds w e :
  (mapBounds (this (world_of (step w e))) = mapBounds (this w) ∧
   options_bounds <$> imageryLayers (this (world_of (step w e)))
   = options_bounds <$> imageryLayers (this w)) ∨
  (∃ info,
     mapBounds (this (world_of (step w e)))
     = Some (extend (aggregate w) (layer_bounds info)) ∧
     options_bounds <$> imageryLayers (this (world_of (step w e)))
     = (options_bounds <$> imageryLayers (this w)) ++ [layer_bounds info]).
Proof.
  destruct e as [h|i r|p|v|n|pts c n|]; simpl.
  - left. unfold componentDidMount. destruct (props_tiles (this w)); [|done].
    match goal with |- context [once_callback None ?w0] =>
      destruct (once_callback_frame None w0) as [_ _ -> _ Hl _ _ _] end.
    split; [done|]. by apply (same_layers_proj options_bounds _ _ (λ _ _, eq_refl)) in Hl.
  - destruct (respond_cases i r w) as [-> | (tile & Hp & Ht)]; [by left|].
    destruct r as [info|err]; [destruct (usable info) eqn:Hu|].
    + right. exists info.
      destruct (respond_done_frame i info w tile Hp Ht Hu) as (_ & _ & -> & Hl & _).
      split; [done|].
      apply (same_layers_proj options_bounds _ _ (λ _ _, eq_refl)) in Hl.
      by rewrite Hl, fmap_app.
    + left. by rewrite (respond_done_unusable _ _ _ _ Hp Ht Hu).
    + left. destruct (respond_fail_frame i err w tile Hp Ht) as (_ & _ & -> & Hl & _).
      split; [done|]. by apply (same_layers_proj options_bounds _ _ (λ _ _, eq_refl)) in Hl.
  - left. unfold click. destruct (map (this w)) as [lm|]; [|done].
    destruct (onClick lm && negb (removed lm)); [|done]. simpl.
    by rewrite click_handler_bounds.
  - left. split; [done|]. by rewrite <- list_fmap_compose.
  - left. unfold toggle_overlay. destruct (_ !! n); [|done]. simpl.
    by rewrite alter_bounds.
  - left. unfold createPolygon. destruct (polygonArray (window w)); [|done].
    by destruct (window_map (window w)).
  - left. unfold componentWillUnmount, map_remove.
    destruct (map (this w)); simpl; [|done].
    assert (options_bounds <$> (set_layer_map false <$> imageryLayers (this w))
            = options_bounds <$> imageryLayers (this w)) as H
      by (by rewrite <- list_fmap_compose).
    by destruct (tileJsonRequests (this w)) as [[|x rs]|].
Qed.

Lemma step_bounds_ordered w e :
  Forall ordered (options_bounds <$> imageryLayers (this w)) →
  Forall ordered (options_bounds <$> imageryLayers (this (world_of (step w e)))).
Proof.
  intros H. destruct (step_bounds w e) as [[_ ->]|(info & _ & ->)]; [done|].
  apply Forall_app. split; [done|]. apply Forall_singleton, ordered_latLngBounds.
Qed.

Lemma step_aggregate w e :
  aggregate w = union_all (options_bounds <$> imageryLayers (this w)) →
  aggregate (world_of (step w e))
  = union_all (options_bounds <$> imageryLayers (this (world_of (step w e)))).
Proof.
  intros H. unfold aggregate in *.
  destruct (step_bounds w e) as [[-> ->]|(info & -> & ->)]; [done|].
  rewrite union_all_snoc. simpl. unfold aggregate. by rewrite H.
Qed.

Lemma run_bounds_invariant tiles opacity bg hp es :
  aggregate (run (initial tiles opacity bg hp) es)
  = union_all (options_bounds <$> imageryLayers (this (run (initial tiles opacity bg hp) es))) ∧
  Forall ordered (options_bounds <$> imageryLayers (this (run (initial tiles opacity bg hp) es))).
Proof.
  assert (∀ w,
    aggregate w = union_all (options_bounds <$> imageryLayers (this w)) ∧
    Forall ordered (options_bounds <$> imageryLayers (this w)) →
    aggregate (run w es) = union_all (options_bounds <$> imageryLayers (this (run w es))) ∧
    Forall ordered (options_bounds <$> imageryLayers (this (run w es)))) as H.
  { induction es as [|e es IH]; intros w Hw; [done|]. rewrite run_cons. apply IH.
    destruct Hw. split; [by apply step_aggregate | by apply step_bounds_ordered]. }
  apply H. split; [done|constructor].
Qed.

Lemma layers_inside_aggregate tiles opacity bg hp es layer latlng :
  layer ∈ imageryLayers (this (run (initial tiles opacity bg hp) es)) →
  contains (options_bounds layer) latlng = true →
  contains (aggregate (run (initial tiles opacity bg hp) es)) latlng = true.
Proof.
  destruct (run_bounds_invariant tiles opacity bg hp es) as [Ha _].
  intros Hl Hc. rewrite Ha.
  eapply union_all_contains; [|exact Hc]. by apply list_elem_of_fmap_2.
Qed.

(** X5.  Whatever happens on the page, the aggregate bounds are the union
    of the bounds of the layers in [imageryLayers] and so cover each of
    them: a point inside the bounds of a layer is inside [mapBounds]. *)
Theorem aggregate_covers_layers tiles opacity bg hp (es : list event)
    (layer : TileLayer) (latlng : LatLng) :
  let w := run (initial tiles opacity bg hp) es in
  aggregate w = union_all (options_bounds <$> imageryLayers (this w)) ∧
  (layer ∈ imageryLayers (this w) →
   contains (options_bounds layer) latlng = true →
   contains (aggregate w) latlng = true).
Proof.
  simpl. destruct (run_bounds_invariant tiles opacity bg hp es) as [Ha _].
  split; [done|]. apply layers_inside_aggregate.
Qed.

(** X6.  Every bounds object the component holds is well ordered on both
    axes (south-west not north or east of north-east): the bounds of each
    layer, for any document whatever, and the aggregate bounds, in every
    world the page can reach. *)
Theorem bounds_stay_ordered tiles opacity bg hp (es : list event) (info : TileJson) :
  let w := run (initial tiles opacity bg hp) es in
  ordered (layer_bounds info) ∧
  Forall (λ l, ordered (options_bounds l)) (imageryLayers (this w)) ∧
  ordered (aggregate w).
Proof.
  simpl. destruct (run_bounds_invariant tiles opacity bg hp es) as [Ha Ho].
  split; [apply ordered_latLngBounds|]. split.
  - exact (proj1 (Forall_fmap options_bounds ordered _) Ho).
  - rewrite Ha. by apply ordered_union_all.
Qed.

(** X7.  A click outside the aggregate bounds opens no popup: it leaves
    every layer as it was, in every world the page can reach. *)
Theorem click_outside_extent tiles opacity bg hp (es : list event) (latlng : LatLng) :
  let w := run (initial tiles opacity bg hp) es in
  contains (aggregate w) latlng = false →
  imageryLayers (this (world_of (step w (Click latlng)))) = imageryLayers (this w).
Proof.
  simpl. intros Hout. unfold click.
  destruct (map (this _)) as [lm|]; [|done].
  destruct (onClick lm && negb (removed lm)); [|done]. simpl.
  apply click_handler_miss. intros l Hl. unfold hit.
  destruct (contains (options_bounds l) latlng) eqn:Hc; [|apply andb_false_r].
  pose proof (layers_inside_aggregate tiles opacity bg hp es l latlng Hl Hc) as H.
  congruence.
Qed.

Lemma aggregate_covers_layers_witness :
  let es := [Mount 0; Respond 0 (Done docP); Respond 1 (Done docQ)] in
  let w := run (initial tilesPQ (Qc_of_Z 100) false heapAB) es in
  new_layer (mkTile "P" 0) docP ∈ imageryLayers (this w) ∧
  contains (options_bounds (new_layer (mkTile "P" 0) docP))
           (mkLatLng (Qc_of_Z 7) (Qc_of_Z 7)) = true ∧
  contains (aggregate w) (mkLatLng (Qc_of_Z 7) (Qc_of_Z 7)) = true.
Proof.
  intros es w.
  assert (new_layer (mkTile "P" 0) docP ∈ imageryLayers (this w)) as Hl
    by (apply (list_elem_of_lookup_2 _ 0%nat); by vm_compute).
  assert (contains (options_bounds (new_layer (mkTile "P" 0) docP))
            (mkLatLng (Qc_of_Z 7) (Qc_of_Z 7)) = true) as Hc by by vm_compute.
  split; [exact Hl|]. split; [exact Hc|].
  exact (proj2 (aggregate_covers_layers tilesPQ (Qc_of_Z 100) false heapAB es
                  (new_layer (mkTile "P" 0) docP) (mkLatLng (Qc_of_Z 7) (Qc_of_Z 7))) Hl Hc).
Defined.

Lemma click_outside_extent_witness :
  let es := [Mount 0; Respond 0 (Done docP); Respond 1 (Done docQ)] in
  let w := run (initial tilesPQ (Qc_of_Z 100) false heapAB) es in
  contains (aggregate w) (mkLatLng (Qc_of_Z 20) (Qc_of_Z 7)) = false ∧
  imageryLayers (this (world_of (step w (Click (mkLatLng (Qc_of_Z 20) (Qc_of_Z 7))))))
  = imageryLayers (this w).
Proof.
  intros es w.
  assert (contains (aggregate w) (mkLatLng (Qc_of_Z 20) (Qc_of_Z 7)) = false) as H
    by by vm_compute.
  split; [exact H|].
  exact (click_outside_extent tilesPQ (Qc_of_Z 100) false heapAB es _ H).
Defined.

(** ** A layer as it is when it arrives *)

Lemma respond_done_layers i info w tile :
  pending w i → props_tiles (this w) !! i = Some tile → usable info = true →
  imageryLayers (this (world_of (respond i (Done info) w)))
  = imageryLayers (this w) ++ [new_layer tile info].
Proof.
  intros Hp Ht Hu.
  rewrite (respond_pending _ _ _ _ Hp Ht), (on_done_usable _ _ _ Hu).
  by rewrite iteratorCallback_silent.
Qed.

(** X8.  The opacity prop does not reach a layer when it is created: a
    successful answer appends the layer with Leaflet's default opacity 1,
    whatever [props.opacity] is, and leaves the layers already present
    exactly as they were; the prop is applied at the next
    [componentDidUpdate] only. *)
Theorem new_layer_has_default_opacity (w : World) (i : nat) (info : TileJson) (tile : Tile) :
  pending w i → props_tiles (this w) !! i = Some tile → well_formed info →
  let w' := world_of (step w (Respond i (Done info))) in
  imageryLayers (this w') = imageryLayers (this w) ++ [new_layer tile info] ∧
  options_opacity <$> last (imageryLayers (this w')) = Some 1.
Proof.
  intros Hp Ht Hwf. simpl.
  rewrite (respond_done_layers _ _ _ _ Hp Ht (usable_well_formed _ Hwf)).
  split; [done|]. by rewrite last_snoc.
Qed.

Lemma new_layer_has_default_opacity_witness :
  let w := world_of (componentDidMount 0 (initial tilesAB (Qc_of_Z 40) false heapAB)) in
  pending w 1 ∧
  props_opacity (this w) = Qc_of_Z 40 ∧
  options_opacity <$> last (imageryLayers (this (world_of (step w (Respond 1 (Done docB))))))
  = Some 1.
Proof.
  intros w.
  assert (pending w 1) as Hp by (exists (mkXHR "B" Pending); by vm_compute).
  split; [exact Hp|]. split; [reflexivity|].
  exact (proj2 (new_layer_has_default_opacity w 1%nat docB (mkTile "B" 1)
                  Hp eq_refl eq_refl)).
Defined.

(** ** Requests and teardown *)

Lemma callback_map err w :
  is_Some (map (this w)) → is_Some (map (this (world_of (callback err w)))).
Proof.
  intros Hm. unfold callback. destruct (from_option truthy false err); [done|].
  by destruct (map (this w) ≫= fitBounds (mapBounds (this w))).
Qed.

Lemma iteratorCallback_map err w :
  is_Some (map (this w)) → is_Some (map (this (world_of (iteratorCallback err w)))).
Proof.
  intros Hm. unfold iteratorCallback, once_callback.
  destruct (from_option truthy false err).
  - destruct (called (loader w)); [done|]. by apply callback_map.
  - case_decide; [|done]. simpl. destruct (called (loader w)); [done|].
    by apply callback_map.
Qed.

Lemma requests_mirror_set_request i w :
  requests_mirror w → requests_mirror (with_this (set_request i Settled) w).
Proof.
  intros [Hm (rs & Hr & Hu & Ha)]. split; [done|].
  exists (alter (set_xhr_state Settled) i rs). simpl. rewrite Hr. simpl.
  split; [done|]. split.
  - rewrite <- Hu. clear. revert i. induction rs as [|x rs IH]; intros [|i]; csimpl;
      rewrite ?IH; done.
  - apply Forall_alter; [done|]. by intros x _ _.
Qed.

Lemma requests_mirror_frame w w' :
  requests_mirror w →
  is_Some (map (this w')) →
  tileJsonRequests (this w') = tileJsonRequests (this w) →
  props_tiles (this w') = props_tiles (this w) →
  requests_mirror w'.
Proof. intros [_ (rs & Hr & Hu & Ha)] Hm H1 H2. split; [done|]. rewrite H1, H2. eauto. Qed.

Lemma mount_requests_mirror h w : requests_mirror (world_of (componentDidMount h w)).
Proof.
  unfold componentDidMount. destruct (props_tiles (this w)) as [|t ts] eqn:Ht.
  - match goal with |- context [once_callback None ?w0] =>
      destruct (once_callback_frame None w0) as [H1 _ _ H4 _ _ _ _];
      assert (is_Some (map (this (world_of (once_callback None w0))))) as Hm end.
    { unfold once_callback. simpl. by apply callback_map. }
    split; [done|]. exists []. rewrite H4, H1. simpl. by rewrite Ht.
  - split; [done|]. exists ((λ tile, mkXHR (url tile) Pending) <$> (t :: ts)).
    split; [done|]. split.
    + rewrite <- list_fmap_compose. cbn [world_of this with_this set_tileJsonRequests
        props_tiles with_loader with_window set_basemaps set_map]. by rewrite Ht.
    + apply Forall_fmap, Forall_forall. by intros x _.
Qed.

Lemma step_requests_mirror w e :
  requests_mirror w → requests_mirror (world_of (step w e)).
Proof.
  intros Hw. destruct e as [h|i r|p|v|n|pts c n|]; simpl.
  - apply mount_requests_mirror.
  - destruct (respond_cases i r w) as [-> | (tile & Hp & Ht)]; [done|].
    rewrite (respond_pending _ _ _ _ Hp Ht).
    pose proof (requests_mirror_set_request i w Hw) as Hw'.
    destruct r as [info|err]; [destruct (usable info) eqn:Hu|].
    + rewrite (on_done_usable _ _ _ Hu).
      match goal with |- context [iteratorCallback None ?w0] =>
        destruct (iteratorCallback_frame None w0) as [H1 _ _ H4 _ _ _ _];
        eapply (requests_mirror_frame (with_this (set_request i Settled) w));
          [done|apply iteratorCallback_map; apply Hw'|by rewrite H4|by rewrite H1] end.
    + by rewrite (on_done_unusable _ _ _ Hu).
    + unfold on_fail.
      match goal with |- context [iteratorCallback ?e ?w0] =>
        destruct (iteratorCallback_frame e w0) as [H1 _ _ H4 _ _ _ _];
        eapply (requests_mirror_frame w0);
          [done|apply iteratorCallback_map; apply Hw'|by rewrite H4|by rewrite H1] end.
  - unfold click. destruct (map (this w)) as [lm|] eqn:Hm; [|done].
    destruct (onClick lm && negb (removed lm)); [|done].
    eapply requests_mirror_frame; [exact Hw| |done|done]. simpl. by rewrite Hm.
  - eapply requests_mirror_frame; [exact Hw| |done|done]. apply Hw.
  - unfold toggle_overlay. destruct (_ !! n); [|done].
    eapply requests_mirror_frame; [exact Hw| |done|done]. apply Hw.
  - unfold createPolygon. destruct (polygonArray (window w)); [|done].
    by destruct (window_map (window w)).
  - destruct Hw as [[lm Hm] (rs & Hr & Hu & Ha)].
    unfold componentWillUnmount, map_remove. rewrite Hm. simpl. rewrite Hr.
    destruct rs as [|x rs]; simpl; (split; [done|]); eexists; eauto.
Qed.

Lemma run_requests_mirror es : ∀ w, requests_mirror w → requests_mirror (run w es).
Proof.
  induction es as [|e es IH]; intros w Hw; [done|].
  rewrite run_cons. by apply IH, step_requests_mirror.
Qed.

(** X9.  From the moment the component is mounted, whatever happens on
    the page, [tileJsonRequests] holds one request per tile, in the order
    of the tiles and for the tile's url, and no request is ever aborted. *)
Theorem requests_follow_tiles h tiles opacity bg hp (es : list event) :
  let w := run (initial tiles opacity bg hp) (Mount h :: es) in
  xhr_url <$> default [] (tileJsonRequests (this w)) = url <$> tiles ∧
  Forall (λ x, xhr_state x ≠ Aborted) (default [] (tileJsonRequests (this w))).
Proof.
  cbv zeta. rewrite run_cons. cbn [step].
  destruct (run_requests_mirror es _ (mount_requests_mirror h (initial tiles opacity bg hp)))
    as [_ (rs & Hr & Hu & Ha)].
  destruct (run_frame (Mount h :: es) (initial tiles opacity bg hp)) as [Ht _].
  rewrite run_cons in Ht. simpl in *. rewrite Hr. simpl. by rewrite Hu, Ht.
Qed.

(** X10.  Unmounting a mounted component always removes the map: every
    layer is taken off it and later clicks change nothing.  It returns
    normally only when the tile list is empty; with at least one tile it
    ends in a [TypeError], also when every request has long settled, and
    the list of requests is left as it was. *)
Theorem unmount_removes_map_and_throws h tiles opacity bg hp (es : list event)
    (latlng : LatLng) :
  let w := run (initial tiles opacity bg hp) (Mount h :: es) in
  let o := componentWillUnmount w in
  throws o = (if tiles is [] then false else true) ∧
  tileJsonRequests (this (world_of o)) = tileJsonRequests (this w) ∧
  (removed <$> map (this (world_of o))) = Some true ∧
  Forall (λ l, _map l = false) (imageryLayers (this (world_of o))) ∧
  click latlng (world_of o) = world_of o.
Proof.
  cbv zeta. rewrite run_cons. cbn [step].
  destruct (run_requests_mirror es _ (mount_requests_mirror h (initial tiles opacity bg hp)))
    as [[lm Hm] (rs & Hr & Hu & Ha)].
  destruct (run_frame (Mount h :: es) (initial tiles opacity bg hp)) as [Ht _].
  rewrite run_cons in Ht. simpl in Ht, Hm, Hr, Hu. rewrite Ht in Hu.
  unfold componentWillUnmount, map_remove. simpl. rewrite Hm. simpl. rewrite Hr.
  assert (Forall (λ l, _map l = false)
            (set_layer_map false <$> imageryLayers (this (run
               (world_of (componentDidMount h (initial tiles opacity bg hp))) es)))) as Hl.
  { apply Forall_fmap, Forall_forall. by intros l _. }
  destruct rs as [|x rs]; destruct tiles as [|t tiles]; try discriminate Hu; simpl;
    unfold click; simpl; by rewrite ?andb_false_r.
Qed.

(** ** The page-wide polygon list *)

Lemma createPolygon_window pts c n w h arr :
  window_map (window w) = Some h → polygonArray (window w) = Some arr →
  window_map (window (world_of (createPolygon pts c n w))) = Some h ∧
  polygonArray (window (world_of (createPolygon pts c n w)))
  = Some (arr ++ [(n, mkPolygon pts c (Some h))]).
Proof. intros Hm Ha. unfold createPolygon. by rewrite Ha, Hm. Qed.

(** X11.  Between two mounts the page-wide [polygonArray] only grows: each
    [createPolygon] call appends one entry, drawn on the map that
    [window.map] names, in the order of the calls; answers, clicks,
    opacity changes, overlay toggles and unmounting leave the list and
    [window.map] alone, so both outlive the component. *)
Theorem polygons_accumulate (w : World) (es : list event) (h : nat)
    (arr : list (string * Polygon)) :
  window_map (window w) = Some h →
  polygonArray (window w) = Some arr →
  Forall (λ e, is_Mount e = false) es →
  window_map (window (run w es)) = Some h ∧
  polygonArray (window (run w es)) = Some (arr ++ polygons_of h es).
Proof.
  revert w arr. induction es as [|e es IH]; intros w arr Hm Ha Hes.
  { simpl. by rewrite app_nil_r. }
  apply Forall_cons in Hes as [He Hes]. rewrite run_cons.
  unfold polygons_of. rewrite bind_cons. fold (polygons_of h es).
  destruct e as [h'|i r|p|v|n|pts c n|]; try discriminate He.
  6: { rewrite app_nil_l.
       pose proof (componentWillUnmount_frame w) as (_ & _ & Hw).
       apply IH; simpl; rewrite ?Hw; done. }
  5: { destruct (createPolygon_window pts c n w h arr Hm Ha) as [Hm' Ha'].
       cbn [step].
       destruct (IH _ _ Hm' Ha' Hes) as [-> ->]. by rewrite <- app_assoc. }
  all: rewrite app_nil_l; pose proof (step_frame w) as Hs.
  - specialize (Hs (Respond i r)) as (_ & _ & Hw). apply IH; rewrite ?Hw; done.
  - specialize (Hs (Click p)) as (_ & _ & Hw). apply IH; rewrite ?Hw; done.
  - specialize (Hs (NewOpacity v)) as (_ & _ & Hw). apply IH; rewrite ?Hw; done.
  - specialize (Hs (ToggleOverlay n)) as (_ & _ & Hw). apply IH; rewrite ?Hw; done.
Qed.

Lemma polygons_accumulate_witness :
  let w := world_of (componentDidMount 3 (initial tilesAB (Qc_of_Z 100) false heapAB)) in
  let es := [CreatePolygon [] "red" "plot 1"; Respond 0 (Done docA); Unmount;
             CreatePolygon [] "blue" "plot 2"] in
  window_map (window w) = Some 3%nat ∧
  polygonArray (window w) = Some [] ∧
  polygonArray (window (run w es))
  = Some [("plot 1", mkPolygon [] "red" (Some 3%nat));
          ("plot 2", mkPolygon [] "blue" (Some 3%nat))].
Proof.
  intros w es. split; [reflexivity|]. split; [reflexivity|].
  refine (proj2 (polygons_accumulate w es 3 [] eq_refl eq_refl _)).
  repeat constructor.
Defined.

(** ** A document without usable bounds *)

Lemma run_stalled answers : ∀ w,
  called (loader w) = false →
  (completed (loader w) + length (filter (λ a, counts a.2 = true) answers)
   < each_length (loader w))%nat →
  in_flight w answers →
  first_error answers = None →
  called (loader (run w (answers_events answers))) = false ∧
  map (this (run w (answers_events answers))) = map (this w).
Proof.
  induction answers as [|[i r] answers IH]; intros w Hc Hlen Hf Herr; [done|].
  destruct (in_flight_head _ _ _ _ Hf) as [Hp [tile Ht]].
  pose proof (in_flight_cons _ _ _ _ _ Hf Ht) as Hf'.
  destruct (respond_keeps i r w tile Hp Ht) as (_ & _ & Hl' & _).
  apply first_error_None_cons in Herr as [Hr Herr].
  unfold answers_events in *. rewrite fmap_cons, run_cons. cbn [step fst snd].
  destruct r as [info|e]; [destruct (usable info) eqn:Hu|].
  - rewrite filter_cons_True in Hlen by done. simpl in Hlen.
    destruct (respond_done_quiet i info w tile Hp Ht Hu Hc)
      as (_ & H2 & _ & H4 & H5); [lia|].
    destruct (IH _ H4) as (IH1 & IH2); [lia|done|done|]. by rewrite IH1, IH2.
  - rewrite filter_cons_False in Hlen by (simpl; by rewrite Hu).
    destruct (respond_done_dropped i info w tile Hp Ht Hu) as (_ & H2 & _ & H4).
    destruct (IH (world_of (respond i (Done info) w))) as (IH1 & IH2);
      [by rewrite H4|rewrite H4; lia|done|done|].
    by rewrite IH1, IH2.
  - simpl in Hr. rewrite filter_cons_True in Hlen by (simpl; by rewrite Hr).
    simpl in Hlen.
    destruct (respond_fail_quiet i e w tile Hp Ht Hr Hc) as (_ & H2 & _ & H4 & H5); [lia|].
    destruct (IH _ H4) as (IH1 & IH2); [lia|done|done|]. by rewrite IH1, IH2.
Qed.

Lemma filter_counts_lt (answers : list (nat * response)) a :
  a ∈ answers → counts a.2 = false →
  (length (filter (λ a, counts a.2 = true) answers) < length answers)%nat.
Proof.
  intros Ha Hn. induction answers as [|b answers IH]; [by apply elem_of_nil in Ha|].
  apply elem_of_cons in Ha as [<-|Ha].
  - rewrite filter_cons_False by (by rewrite Hn). simpl.
    pose proof (length_filter (λ a, counts a.2 = true) answers). lia.
  - specialize (IH Ha). destruct (decide (counts b.2 = true)).
    + rewrite filter_cons_True by done. simpl. lia.
    + rewrite filter_cons_False by done. simpl. lia.
Qed.

(** X12.  A document whose bounds array yields no corner stalls the load
    for good: its handler throws before reporting to [async.each], so even
    when every tile has answered and none with a truthy error, the final
    callback has not run, no error is shown, and the click listener is not
    registered. *)
Theorem load_stalls_on_cornerless_document tiles opacity bg hp
    (answers : list (nat * response)) (i : nat) (info : TileJson) (latlng : LatLng) :
  NoDup answers.*1 →
  (∀ a, a ∈ answers → (a.1 < length tiles)%nat) →
  first_error answers = None →
  (i, Done info) ∈ answers → usable info = false →
  let w := loadAll tiles opacity bg hp answers in
  called (loader w) = false ∧
  state_error (this w) = Some EmptyString ∧
  click latlng w = w.
Proof.
  intros Hnd Hr Herr Hi Hu. cbv zeta. unfold loadAll.
  destruct (answers_in_flight 0 tiles opacity bg hp answers Hnd Hr) as [Hf Hlen].
  pose proof (filter_counts_lt answers (i, Done info) Hi Hu) as Hlt.
  destruct tiles as [|tile tiles]; [simpl in *; lia|].
  destruct (mount_loader 0 tile tiles opacity bg hp) as (Hc & Hk & He & Hm).
  destruct (mount_frame 0 (tile :: tiles) opacity bg hp) as (_ & _ & _ & _ & _ & _ & Hn).
  destruct (run_stalled answers _ Hc) as (R1 & R2); [|done|done|].
  { rewrite Hk, Hn. simpl in *. lia. }
  unfold answers_events in *. split; [done|]. split.
  - pose proof (run_keeps_error answers
      (world_of (componentDidMount 0 (initial (tile :: tiles) opacity bg hp))) Herr) as R3.
    unfold answers_events in R3. by rewrite R3.
  - eapply click_unregistered; [by rewrite R2, Hm|done].
Qed.

Lemma load_stalls_on_cornerless_document_witness :
  NoDup [(0%nat, Done docS); (1%nat, Done docB)].*1 ∧
  first_error [(0%nat, Done docS); (1%nat, Done docB)] = None ∧
  usable docS = false ∧
  called (loader (loadAll tilesAB (Qc_of_Z 100) false heapAB
                    [(0%nat, Done docS); (1%nat, Done docB)])) = false.
Proof.
  assert (NoDup [(0%nat, Done docS); (1%nat, Done docB)].*1) as Hnd
    by (apply (bool_decide_unpack _); by vm_compute).
  split; [exact Hnd|]. split; [reflexivity|]. split; [reflexivity|].
  refine (proj1 (load_stalls_on_cornerless_document tilesAB (Qc_of_Z 100) false heapAB
    [(0%nat, Done docS); (1%nat, Done docB)] 0 docS (mkLatLng 1 1) Hnd _ eq_refl _ eq_refl)).
  - intros a Ha. apply elem_of_cons in Ha as [->|Ha]; [simpl; lia|].
    apply list_elem_of_singleton in Ha as ->. simpl. lia.
  - by left.
Defined.

(** * Properties of ProjectListItem.jsx *)

Import ProjectListItem.

Lemma success_spec files :
  success files = true ↔ files ≠ [] ∧ Forall (λ file, status file = "success") files.
Proof.
  unfold success. rewrite andb_true_iff, !bool_decide_eq_true. split.
  - intros [Hl Hf]. split; [by destruct files; [simpl in Hl; lia|]|].
    apply length_zero_iff_nil in Hf.
    apply Forall_forall. intros file Hfile.
    destruct (decide (status file = "success")) as [|Hn]; [done|].
    assert (file ∈ filter (λ file, status file ≠ "success") files) as Hin
      by (by apply list_elem_of_filter).
    rewrite Hf in Hin. by apply elem_of_nil in Hin.
  - intros [Hne Hall]. split; [destruct files; [done|simpl; lia]|].
    apply length_zero_iff_nil. induction Hall as [|file files Hs _ IH]; [done|].
    rewrite filter_cons_False by (by intros ?).
    destruct files; [done|]. by apply IH.
Qed.

Lemma updateTaskInfo_Ok id taskInfo c c' :
  updateTaskInfo id taskInfo c = Ok c' →
  ∃ info, taskInfo = Some info ∧ truthy_id id = true ∧
    c' = mkInstance
           (mkState (showTaskList (state c)) true
              (merge (upload (state c))
                 (mkProps None (Some false) None None None None None None None))
              (state_error (state c)) (data (state c)) (refreshing (state c)))
           (updateTaskRequests c ++
            [mkRequest (project_id (data (state c))) (taskId (upload (state c)))
               (task_name info) (task_options info) (selectedNode_id info)]).
Proof.
  unfold updateTaskInfo. destruct (truthy_id id); simpl; [|done].
  destruct taskInfo as [info|]; [|done]. intros [= <-]. eauto.
Qed.

Lemma updateTaskInfo_Threw id taskInfo c message c' :
  updateTaskInfo id taskInfo c = Threw message c' → c' = c.
Proof.
  unfold updateTaskInfo. destruct (truthy_id id); simpl; [|by intros [= _ <-]].
  destruct taskInfo; [done|]. by intros [= _ <-].
Qed.

Lemma completemultiple_uploading files taskInfo c :
  uploading (upload (state (completemultiple files taskInfo c))) = false.
Proof.
  unfold completemultiple. destruct (success files); [|done].
  destruct (xhr_response <$> head files) as [[message|id shown]|]; try done.
  destruct (truthy_id id); simpl; [|done].
  destruct (savedTaskInfo (upload (state c))); [|done].
  destruct (updateTaskInfo _ _ _) as [c3|message c3] eqn:Hu.
  - by apply updateTaskInfo_Ok in Hu as (info & _ & _ & ->).
  - by apply updateTaskInfo_Threw in Hu as ->.
Qed.

Lemma completemultiple_frame files taskInfo c :
  outside_upload (completemultiple files taskInfo c) = outside_upload c ∧
  totalCount (upload (state (completemultiple files taskInfo c)))
  = totalCount (upload (state c)) ∧
  (showEditTask (upload (state c)) = false →
   showEditTask (upload (state (completemultiple files taskInfo c))) = false) ∧
  updateTaskRequests c `prefix_of` updateTaskRequests (completemultiple files taskInfo c).
Proof.
  unfold completemultiple. destruct (success files); [|done].
  destruct (xhr_response <$> head files) as [[message|id shown]|]; try done.
  destruct (truthy_id id); simpl; [|done].
  destruct (savedTaskInfo (upload (state c))); [|done].
  destruct (updateTaskInfo _ _ _) as [c3|message c3] eqn:Hu.
  - apply updateTaskInfo_Ok in Hu as (info & _ & _ & ->). simpl.
    repeat split; try done. by apply prefix_app_r.
  - by apply updateTaskInfo_Threw in Hu as ->.
Qed.

(** X13.  The file counter of the upload counts the files added since the
    upload state was last reset (by Dropzone's [reset] or [dragenter] or by
    the upload button): progress reports, the start and the end of the
    transfer and the other clicks leave it alone. *)
Theorem totalCount_counts_added_files (c : Instance) (es : list event) :
  totalCount (upload (state (run c es)))
  = added_since_reset (totalCount (upload (state c))) es.
Proof.
  revert c. induction es as [|e es IH]; intros c; [done|].
  unfold run in *. cbn [foldl]. rewrite IH.
  destruct e; simpl; try done.
  - by rewrite Nat.add_1_r.
  - by destruct (completemultiple_frame files taskInfo c) as (_ & -> & _).
Qed.

(** X14.  While files are being transferred the edit panel and the
    progress bar are on screen: in every state the row can reach,
    [upload.uploading] implies [upload.showEditTask]; and whenever Dropzone
    reports the end of the transfer, [uploading] is false afterwards,
    whether the transfer or the server's answer was good or not. *)
Theorem uploading_shows_edit_panel (project : Project) (es : list event)
    (files : list File) (taskInfo : option TaskInfo) :
  let c := run (constructor project) es in
  (uploading (upload (state c)) = true → showEditTask (upload (state c)) = true) ∧
  uploading (upload (state (step c (CompleteMultiple files taskInfo)))) = false.
Proof.
  cbv zeta. split; [|apply completemultiple_uploading].
  assert (∀ c, (uploading (upload (state c)) = true → showEditTask (upload (state c)) = true) →
               uploading (upload (state (run c es))) = true →
               showEditTask (upload (state (run c es))) = true) as H.
  { induction es as [|e es IH]; intros c Hc; [done|].
    unfold run in *. cbn [foldl]. apply IH.
    destruct e; simpl; try done.
    by rewrite completemultiple_uploading. }
  by apply H.
Qed.

Lemma step_sends_update c e :
  if sends_update c e then
    updatingTask (state (step c e)) = true ∧
    ∃ r, updateTaskRequests (step c e) = updateTaskRequests c ++ [r]
  else
    updatingTask (state (step c e)) = updatingTask (state c) ∧
    updateTaskRequests (step c e) = updateTaskRequests c.
Proof.
  destruct e; try done. simpl. unfold completemultiple.
  destruct (success files); [|by destruct taskInfo].
  destruct (xhr_response <$> head files) as [[message|id shown]|];
    [by destruct taskInfo; rewrite ?andb_false_r| |by destruct taskInfo; rewrite ?andb_false_r].
  unfold updateTaskInfo.
  destruct (truthy_id id); simpl;
    [|by destruct taskInfo; rewrite ?andb_false_r].
  destruct (savedTaskInfo (upload (state c))); [|by destruct taskInfo].
  destruct taskInfo as [info|]; simpl; [|done]. eauto.
Qed.

(** X15.  What Dropzone's events and the upload clicks change outside
    [state.upload].  The project data, the row's error text and the
    refreshing flag stay as they are; the task list changes with
    [toggleTaskList] only; the requests already issued are never dropped.
    [updatingTask] is written too (line 166, through [updateTaskInfo]
    called from [completemultiple], line 138): an event sets it to true
    and appends one request exactly when it [sends_update], and leaves the
    flag and the requests alone otherwise; none of these events sets it
    back to false.  So after any sequence of them the flag is true exactly
    when it was true before or a request has been sent since. *)
Theorem upload_events_frame (c : Instance) (es : list event) :
  data (state (run c es)) = data (state c) ∧
  state_error (state (run c es)) = state_error (state c) ∧
  refreshing (state (run c es)) = refreshing (state c) ∧
  (Forall (λ e, e ≠ ToggleTaskList) es →
   showTaskList (state (run c es)) = showTaskList (state c)) ∧
  updateTaskRequests c `prefix_of` updateTaskRequests (run c es) ∧
  (∀ e,
     if sends_update c e then
       updatingTask (state (step c e)) = true ∧
       ∃ r, updateTaskRequests (step c e) = updateTaskRequests c ++ [r]
     else
       updatingTask (state (step c e)) = updatingTask (state c) ∧
       updateTaskRequests (step c e) = updateTaskRequests c) ∧
  updatingTask (state (run c es))
  = updatingTask (state c) ||
    bool_decide (length (updateTaskRequests c) < length (updateTaskRequests (run c es)))%nat.
Proof.
  revert c. induction es as [|e es IH]; intros c.
  { repeat split; try done; [apply step_sends_update|].
    simpl. rewrite bool_decide_eq_false_2 by lia. by rewrite orb_false_r. }
  unfold run in *. cbn [foldl].
  destruct (IH (step c e)) as (H1 & H2 & H3 & H4 & H5 & _ & H7).
  assert (data (state (step c e)) = data (state c) ∧
          state_error (state (step c e)) = state_error (state c) ∧
          refreshing (state (step c e)) = refreshing (state c) ∧
          (e ≠ ToggleTaskList → showTaskList (state (step c e)) = showTaskList (state c)) ∧
          updateTaskRequests c `prefix_of` updateTaskRequests (step c e)) as (S1 & S2 & S3 & S4 & S5).
  { destruct e; simpl; try done.
    destruct (completemultiple_frame files taskInfo c) as (Hf & _ & _ & Hp).
    unfold outside_upload in Hf. by simplify_eq. }
  rewrite H1, H2, H3, S1, S2, S3. repeat split.
  - intros Hes. apply Forall_cons in Hes as [He Hes]. by rewrite H4, S4.
  - by etrans.
  - apply step_sends_update.
  - rewrite H7. apply prefix_length in H5.
    pose proof (step_sends_update c e) as Hs.
    destruct (sends_update c e).
    + destruct Hs as [-> [r Hr]]. rewrite Hr, length_app in H5. simpl in *.
      rewrite (bool_decide_eq_true_2 (_ < _)%nat) by lia. by rewrite orb_true_r.
    + destruct Hs as [-> ->]. done.
Qed.

Lemma upload_events_frame_witness :
  showTaskList (state (run (constructor (mkProject 4 "field" "north" [1; 2]%Z))
                           [AddedFile; ProcessingMultiple; Reset])) = false.
Proof.
  refine (proj1 (proj2 (proj2 (proj2 (upload_events_frame
    (constructor (mkProject 4 "field" "north" [1; 2]%Z))
    [AddedFile; ProcessingMultiple; Reset])))) _).
  repeat constructor; discriminate.
Defined.

Lemma uploading_shows_edit_panel_witness :
  let c := run (constructor (mkProject 4 "field" "north" [])) [AddedFile; ProcessingMultiple] in
  uploading (upload (state c)) = true ∧ showEditTask (upload (state c)) = true.
Proof.
  intros c. split; [reflexivity|].
  exact (proj1 (uploading_shows_edit_panel (mkProject 4 "field" "north" [])
                  [AddedFile; ProcessingMultiple] [] None) eq_refl).
Defined.

Lemma success_false files :
  files = [] ∨ Exists (λ file, status file ≠ "success") files → success files = false.
Proof.
  intros H. destruct (success files) eqn:Hs; [|done].
  apply success_spec in Hs as [Hne Hall]. destruct H as [->|Hex]; [done|].
  apply Exists_exists in Hex as (file & Hin & Hn).
  by eapply Forall_forall in Hall.
Qed.

(** X16.  When Dropzone reports the end of a transfer with no file at
    all, or with a file whose status is not [success], the row shows the
    fixed failure text, stops uploading, keeps whatever task id it had and
    sends no request. *)
Theorem completemultiple_failed_transfer (files : list File) (taskInfo : option TaskInfo)
    (c : Instance) :
  files = [] ∨ Exists (λ file, status file ≠ "success") files →
  let c' := step c (CompleteMultiple files taskInfo) in
  upload (state c') =
    merge (upload (state c))
      (mkProps (Some false) None (Some could_not_upload) None None None None None None) ∧
  taskId (upload (state c')) = taskId (upload (state c)) ∧
  updatingTask (state c') = updatingTask (state c) ∧
  updateTaskRequests c' = updateTaskRequests c.
Proof.
  intros H. simpl. unfold completemultiple. by rewrite (success_false _ H).
Qed.

Lemma completemultiple_failed_transfer_witness :
  let c := run (constructor (mkProject 4 "field" "north" [])) [AddedFile; ProcessingMultiple] in
  error (upload (state (step c (CompleteMultiple [] None)))) = could_not_upload.
Proof.
  intros c.
  pose proof (proj1 (completemultiple_failed_transfer [] None c (or_introl eq_refl))) as H.
  exact (eq_trans (f_equal error H) eq_refl).
Defined.

(** X17.  When every file was transferred but the answer of the first one
    has nothing truthy under [id] (no such field, [null], [false], 0 or
    the empty string), the answer is refused: the row shows
    [Invalid response from server: Expected id field, but none given (...)],
    the task id is not set and no request is sent, also when the task
    options were saved already. *)
Theorem completemultiple_refuses_falsy_id (file : File) (files : list File)
    (taskInfo : option TaskInfo) (c : Instance) (id : idval) (shown : string) :
  Forall (λ f, status f = "success") (file :: files) →
  xhr_response file = Answer id shown →
  truthy_id id = false →
  let c' := step c (CompleteMultiple (file :: files) taskInfo) in
  upload (state c') =
    merge (upload (state c))
      (mkProps (Some false) None
         (Some ("Invalid response from server: Expected id field, but none given ("
                +:+ shown +:+ ")"))
         None None None None None None) ∧
  taskId (upload (state c')) = taskId (upload (state c)) ∧
  updatingTask (state c') = updatingTask (state c) ∧
  updateTaskRequests c' = updateTaskRequests c.
Proof.
  intros Hall Hr Hid. simpl. unfold completemultiple.
  rewrite (proj2 (success_spec (file :: files))) by done.
  simpl. by rewrite Hr, Hid.
Qed.

Lemma completemultiple_refuses_falsy_id_witness :
  let c := run (constructor (mkProject 4 "field" "north" [])) [AddedFile; ProcessingMultiple] in
  let file := mkFile "success" (Answer (IdNum 0) "[object Object]") in
  taskId (upload (state (step c (CompleteMultiple [file] None)))) = IdNull.
Proof.
  intros c file.
  refine (eq_trans (proj1 (proj2 (completemultiple_refuses_falsy_id file [] None c
    (IdNum 0) "[object Object]" _ eq_refl eq_refl))) eq_refl).
  by repeat constructor.
Defined.

(** X18.  When every file was transferred and the answer of the first one
    carries a truthy [id], that id becomes the task id and the row stops
    uploading without touching its error text.  If the task options were
    not saved yet, nothing else happens; if they were, and the panel gives
    them, exactly one [PATCH] request is sent, for this project and this
    task with the panel's name, options and node, the edit panel is
    closed and the row is marked as updating. *)
Theorem completemultiple_sets_task_id (file : File) (files : list File)
    (taskInfo : option TaskInfo) (c : Instance) (id : idval) (shown : string) :
  Forall (λ f, status f = "success") (file :: files) →
  xhr_response file = Answer id shown →
  truthy_id id = true →
  let c' := step c (CompleteMultiple (file :: files) taskInfo) in
  (savedTaskInfo (upload (state c)) = false →
   upload (state c') =
     merge (upload (state c))
       (mkProps (Some false) None None None None None None None (Some id)) ∧
   updatingTask (state c') = updatingTask (state c) ∧
   updateTaskRequests c' = updateTaskRequests c) ∧
  (∀ info, savedTaskInfo (upload (state c)) = true → taskInfo = Some info →
   upload (state c') =
     merge (upload (state c))
       (mkProps (Some false) (Some false) None None None None None None (Some id)) ∧
   updatingTask (state c') = true ∧
   updateTaskRequests c' =
     updateTaskRequests c ++
       [mkRequest (project_id (data (state c))) id
          (task_name info) (task_options info) (selectedNode_id info)]).
Proof.
  intros Hall Hr Hid. simpl. unfold completemultiple.
  rewrite (proj2 (success_spec (file :: files))) by done.
  simpl. rewrite Hr, Hid. simpl. split.
  - intros ->. done.
  - intros info -> ->. unfold updateTaskInfo. by rewrite Hid.
Qed.

Lemma completemultiple_sets_task_id_witness :
  let c := run (constructor (mkProject 4 "field" "north" [])) [AddedFile; ProcessingMultiple] in
  let file := mkFile "success" (Answer (IdNum 12) "[object Object]") in
  savedTaskInfo (upload (state c)) = false ∧
  taskId (upload (state (step c (CompleteMultiple [file] None)))) = IdNum 12 ∧
  updateTaskRequests (step c (CompleteMultiple [file] None)) = [].
Proof.
  intros c file. split; [reflexivity|].
  assert (Forall (λ f, status f = "success") [file]) as Hall by by repeat constructor.
  destruct (proj1 (completemultiple_sets_task_id file [] None c (IdNum 12)
                     "[object Object]" Hall eq_refl eq_refl) eq_refl) as (Hu & _ & Hq).
  split; [|exact Hq]. exact (eq_trans (f_equal taskId Hu) eq_refl).
Defined.
